(** * Hive partitioned storage (ml4t.data.storage.hive): model and properties

    The development follows [src/ml4t/data/storage/hive.py] and
    [src/ml4t/data/storage/backend.py].  Python exceptions are an error
    monad, the directory tree under [base_path] is explicit state, data
    frames are a list of column names with a list of rows, and a lazy frame
    is a query plan that is evaluated against the file system when it is
    collected. *)

From Stdlib Require Import ZArith String Ascii List Lia DecimalString DecimalZ OrderedTypeEx.
From stdpp Require Import base option gmap list strings sorting.

Local Open Scope string_scope.
Local Open Scope list_scope.

(** ** Exceptions and results *)

Inductive exn :=
  | KeyError
  | ValueError
  | AttributeError
  | OSError
  | ColumnNotFoundError
  | ShapeError
  | InvalidOperationError
  | ComputeError.

Inductive result (A : Type) :=
  | Ok (a : A)
  | Raise (e : exn).
Arguments Ok {A} a.
Arguments Raise {A} e.

#[global] Instance exn_eq_dec : EqDecision exn.
Proof. solve_decision. Defined.

#[global] Instance result_ret : MRet result := @Ok.
#[global] Instance result_bind : MBind result := fun A B f m =>
  match m with
  | Ok a => f a
  | Raise e => Raise e
  end.

(** [for x in l: ys.append(f x)], stopping at the first exception. *)
Fixpoint mapM_res {A B} (f : A -> result B) (l : list A) : result (list B) :=
  match l with
  | [] => Ok []
  | x :: l' => y ← f x; ys ← mapM_res f l'; Ok (y :: ys)
  end.

(** [try: body  except Exception: handler]. *)
Definition try_except {A} (body : result A) (handler : result A) : result A :=
  match body with
  | Ok a => Ok a
  | Raise _ => handler
  end.

(** ** Strings: the pieces of [str] the storage code uses *)

(** [s.replace(a, b)] for one-character [a] and [b]. *)
Fixpoint replace_char (a b : ascii) (s : string) : string :=
  match s with
  | EmptyString => EmptyString
  | String c s' => String (if Ascii.eqb c a then b else c) (replace_char a b s')
  end.


(** [part.split("=", 1)] when ["=" in part]: the text before and after the
    first ["="]; [None] when the part has no ["="]. *)
Fixpoint split_eq (s : string) : option (string * string) :=
  match s with
  | EmptyString => None
  | String c s' =>
      if Ascii.eqb c "=" then Some (EmptyString, s')
      else match split_eq s' with
           | Some (a, b) => Some (String c a, b)
           | None => None
           end
  end.

(** ["/".join(parts)]. *)
Fixpoint join_slash (parts : list string) : string :=
  match parts with
  | [] => EmptyString
  | [p] => p
  | p :: ps => p +:+ "/" +:+ join_slash ps
  end.

(** [str(n)] for an [int]. *)
Definition str_of_Z (z : Z) : string := NilZero.string_of_int (Z.to_int z).

(** [int(s)] on a plain decimal numeral with an optional minus sign; every
    other text raises [ValueError].  (Python also accepts surrounding white
    space, a plus sign and digit-group underscores; the store never writes
    such names.) *)
Definition py_int (s : string) : result Z :=
  match NilZero.int_of_string s with
  | Some d => Ok (Z.of_int d)
  | None => Raise ValueError
  end.

(** Lexicographic comparison of lists of strings, as Python compares the
    [parts] of two paths. *)
Fixpoint parts_leb (p q : list string) : bool :=
  match p, q with
  | [], _ => true
  | _ :: _, [] => false
  | a :: p', b :: q' =>
      match String.compare a b with
      | Lt => true
      | Gt => false
      | Eq => parts_leb p' q'
      end
  end.

(** ** [datetime] *)

Record datetime := mk_datetime {
  year : Z; month : Z; day : Z; hour : Z;
  minute : Z; second : Z; microsecond : Z
}.

#[global] Instance datetime_eq_dec : EqDecision datetime.
Proof. solve_decision. Defined.

Definition lex (c1 c2 : comparison) : comparison :=
  match c1 with
  | Eq => c2
  | _ => c1
  end.

(** Naive datetimes compare field by field, most significant first. *)
Definition dt_compare (a b : datetime) : comparison :=
  lex (year a ?= year b)%Z
 (lex (month a ?= month b)%Z
 (lex (day a ?= day b)%Z
 (lex (hour a ?= hour b)%Z
 (lex (minute a ?= minute b)%Z
 (lex (second a ?= second b)%Z
      (microsecond a ?= microsecond b)%Z))))).

Definition dt_leb (a b : datetime) : bool :=
  match dt_compare a b with
  | Gt => false
  | _ => true
  end.

Definition dt_ltb (a b : datetime) : bool :=
  match dt_compare a b with
  | Lt => true
  | _ => false
  end.

(** Zero-padded decimal rendering of a field, [width] digits at least. *)
Fixpoint pad_left (width : nat) (s : string) : string :=
  match width with
  | O => s
  | S w => if Nat.ltb (String.length s) width then pad_left w ("0" +:+ s) else s
  end.

Definition fmt_field (width : nat) (z : Z) : string := pad_left width (str_of_Z z).

(** [d.isoformat(sep)]: [YYYY-MM-DD<sep>HH:MM:SS], with [.ffffff] when the
    microsecond is not zero. *)
Definition isoformat_sep (sep : string) (d : datetime) : string :=
  fmt_field 4 (year d) +:+ "-" +:+ fmt_field 2 (month d) +:+ "-" +:+ fmt_field 2 (day d)
  +:+ sep +:+ fmt_field 2 (hour d) +:+ ":" +:+ fmt_field 2 (minute d) +:+ ":"
  +:+ fmt_field 2 (second d)
  +:+ (if Z.eqb (microsecond d) 0 then EmptyString else "." +:+ fmt_field 6 (microsecond d)).

Definition isoformat (d : datetime) : string := isoformat_sep "T" d.

(** ** Polars: values, eager frames *)

Inductive value :=
  | VInt (z : Z)
  | VStr (s : string)
  | VTime (t : datetime).

#[global] Instance value_eq_dec : EqDecision value.
Proof. solve_decision. Defined.

(** [str(v)], as used in an f-string. *)
Definition py_str (v : value) : string :=
  match v with
  | VInt z => str_of_Z z
  | VStr s => s
  | VTime t => isoformat_sep " " t
  end.

(** Order used by [sort] and [max].  A column holds values of one type; the
    order between different constructors only makes the function total. *)
Definition value_leb (a b : value) : bool :=
  match a, b with
  | VInt x, VInt y => Z.leb x y
  | VInt _, _ => true
  | VStr _, VInt _ => false
  | VStr x, VStr y => String.leb x y
  | VStr _, VTime _ => true
  | VTime x, VTime y => dt_leb x y
  | VTime _, _ => false
  end.

Abbreviation row := (list value).

Record DataFrame := mk_df {
  columns : list string;
  rows : list row
}.

#[global] Instance DataFrame_eq_dec : EqDecision DataFrame.
Proof. solve_decision. Defined.

(** [pl.DataFrame()]: no column, no row. *)
Definition empty_frame : DataFrame := mk_df [] [].

(** [len(df)]. *)
Definition height (df : DataFrame) : Z := Z.of_nat (length (rows df)).

(** [df.is_empty()]. *)
Definition is_empty (df : DataFrame) : bool :=
  match rows df with
  | [] => true
  | _ => false
  end.

Fixpoint col_index (c : string) (cols : list string) : option nat :=
  match cols with
  | [] => None
  | x :: cols' => if decide (x = c) then Some O else S <$> col_index c cols'
  end.

(** The value of column [c] in one row. *)
Definition cell (cols : list string) (c : string) (r : row) : result value :=
  match col_index c cols with
  | None => Raise ColumnNotFoundError
  | Some i =>
      match r !! i with
      | Some v => Ok v
      | None => Raise ShapeError
      end
  end.

(** [df[c]]: the column as a list; the name is checked even without rows. *)
Definition col_values (c : string) (df : DataFrame) : result (list value) :=
  match col_index c (columns df) with
  | None => Raise ColumnNotFoundError
  | Some _ => mapM_res (cell (columns df) c) (rows df)
  end.

(** A [pl.col("timestamp").dt.<field>()] expression; on a value that is not
    temporal the [dt] namespace raises. *)
Definition dt_field (f : datetime -> Z) (v : value) : result value :=
  match v with
  | VTime t => Ok (VInt (f t))
  | _ => Raise InvalidOperationError
  end.

(** One column of [with_columns]: an existing column of that name is
    replaced in place, a new one is added at the end. *)
Definition set_column (name : string) (vals : list value) (df : DataFrame) : DataFrame :=
  match col_index name (columns df) with
  | Some i => mk_df (columns df) (zip_with (fun r v => <[i := v]> r) (rows df) vals)
  | None => mk_df (columns df ++ [name]) (zip_with (fun r v => r ++ [v]) (rows df) vals)
  end.

(** [df.with_columns([pl.col("timestamp").dt.f().alias(name), ...])]: every
    expression is evaluated on the frame as it was, then the columns are set
    in the order given. *)
Definition with_columns (exprs : list (string * (datetime -> Z))) (df : DataFrame)
  : result DataFrame :=
  ts ← col_values "timestamp" df;
  news ← mapM_res (fun e : string * (datetime -> Z) =>
                     vals ← mapM_res (dt_field (snd e)) ts; Ok (fst e, vals)) exprs;
  Ok (foldl (fun acc (nv : string * list value) => set_column (fst nv) (snd nv) acc) df news).

(** Keep the entries of [r] whose column passes [keep]. *)
Fixpoint mask_row (keep : list bool) (r : row) : row :=
  match keep, r with
  | k :: keep', v :: r' => if k then v :: mask_row keep' r' else mask_row keep' r'
  | _, _ => []
  end.

(** [df.drop(names)]; dropping a column that is not there raises. *)
Definition drop_columns (names : list string) (df : DataFrame) : result DataFrame :=
  if forallb (fun n => bool_decide (n ∈ columns df)) names then
    let keep := map (fun c => bool_decide (c ∉ names)) (columns df) in
    Ok (mk_df (List.filter (fun c => bool_decide (c ∉ names)) (columns df))
              (map (mask_row keep) (rows df)))
  else Raise ColumnNotFoundError.

(** [df.select(names)]. *)
Definition select (names : list string) (df : DataFrame) : result DataFrame :=
  if forallb (fun n => bool_decide (n ∈ columns df)) names then
    rs ← mapM_res (fun r => mapM_res (fun n => cell (columns df) n r) names) (rows df);
    Ok (mk_df names rs)
  else Raise ColumnNotFoundError.

(** The keys of a list in the order of their first occurrence. *)
Definition first_occurrences {K} `{EqDecision K} (ks : list K) : list K :=
  rev (remove_dups (rev ks)).

(** [df.group_by(by, maintain_order=True)]: one sub-frame per distinct key
    tuple, groups in the order in which their key first appears, rows in
    their original order. *)
Definition group_by (by_cols : list string) (df : DataFrame)
  : result (list (list value * DataFrame)) :=
  keys ← mapM_res (fun r => mapM_res (fun c => cell (columns df) c r) by_cols) (rows df);
  let keyed := zip keys (rows df) in
  Ok (map (fun k => (k, mk_df (columns df)
                          (map snd (List.filter (fun kr => bool_decide (fst kr = k)) keyed))))
          (first_occurrences keys)).

(** Comparison of a timestamp cell with a [datetime] bound; a cell of
    another type cannot be compared with it. *)
Definition ts_test (test : datetime -> bool) (cols : list string) (r : row) : result bool :=
  v ← cell cols "timestamp" r;
  match v with
  | VTime t => Ok (test t)
  | _ => Raise InvalidOperationError
  end.

(** [df.filter(pred(pl.col("timestamp")))]. *)
Definition filter_ts (test : datetime -> bool) (df : DataFrame) : result DataFrame :=
  match col_index "timestamp" (columns df) with
  | None => Raise ColumnNotFoundError
  | Some _ =>
      keep ← mapM_res (ts_test test (columns df)) (rows df);
      Ok (mk_df (columns df) (map snd (List.filter fst (zip keep (rows df)))))
  end.

(** Appending one frame to another ([vstack]): a frame without columns
    takes the other one's; otherwise the column names have to agree. *)
Definition vstack (acc other : DataFrame) : result DataFrame :=
  if bool_decide (length (columns acc) = length (columns other)) then
    if bool_decide (columns acc = columns other)
    then Ok (mk_df (columns acc) (rows acc ++ rows other))
    else Raise ShapeError
  else if bool_decide (columns acc = []) then Ok other
  else Raise ShapeError.

(** [pl.concat(frames)] on eager frames. *)
Definition concat_df (frames : list DataFrame) : result DataFrame :=
  match frames with
  | [] => Raise ValueError
  | f :: fs => foldl (fun acc g => a ← acc; vstack a g) (Ok f) fs
  end.

(** Insertion of [x] into a list ordered by [key]. *)
Fixpoint insert_by {A} (leb : A -> A -> bool) (x : A) (l : list A) : list A :=
  match l with
  | [] => [x]
  | y :: l' => if leb x y then x :: l else y :: insert_by leb x l'
  end.

Definition sort_by {A} (leb : A -> A -> bool) (l : list A) : list A :=
  foldr (insert_by leb) [] l.

(** [df.sort(c)]: ascending by the values of column [c]. *)
Definition sort (c : string) (df : DataFrame) : result DataFrame :=
  ks ← col_values c df;
  Ok (mk_df (columns df)
        (map snd (sort_by (fun a b : value * row => value_leb (fst a) (fst b))
                          (zip ks (rows df))))).

(** Keep the entries whose key does not occur again later in the list. *)
Fixpoint keep_last {K A} `{EqDecision K} (l : list (K * A)) : list (K * A) :=
  match l with
  | [] => []
  | (k, a) :: l' =>
      if bool_decide (k ∈ map fst l') then keep_last l' else (k, a) :: keep_last l'
  end.

(** [df.unique(subset=[c], keep="last")].  Polars leaves the order of the
    result unspecified; the rows are kept here in their original order. *)
Definition unique_last (c : string) (df : DataFrame) : result DataFrame :=
  ks ← col_values c df;
  Ok (mk_df (columns df) (map snd (keep_last (zip ks (rows df))))).

(** [series.max()]: [None] on an empty column. *)
Definition max_value (vs : list value) : option value :=
  match vs with
  | [] => None
  | v :: vs' => Some (foldl (fun m x => if value_leb m x then x else m) v vs')
  end.

(** ** JSON documents *)

#[warnings="-register-all"] Inductive json :=
  | JNull
  | JInt (z : Z)
  | JStr (s : string)
  | JList (items : list json)
  | JObj (fields : list (string * json)).

(** ** The directory tree *)

Inductive content :=
  | Parquet (codec : string) (df : DataFrame)
  | JsonDoc (doc : gmap string json)
  | Garbage.

Inductive node :=
  | Dir
  | File (c : content).

(** A path is the list of its components.  [tree] maps every path that
    exists to what it is; [write_fails] are the directories in which writing
    the bytes of a file fails (no space left, quota, a failing device);
    [stat_fails] are the paths the system refuses to look at or through
    (no search permission, a name longer than it allows). *)
Record FS := mk_fs {
  tree : gmap (list string) node;
  write_fails : gset (list string);
  stat_fails : gset (list string)
}.

Definition set_tree (f : gmap (list string) node -> gmap (list string) node) (fs : FS) : FS :=
  mk_fs (f (tree fs)) (write_fails fs) (stat_fails fs).

(** [base / name] for a name without ["/"]. *)
Definition path_join (base : list string) (name : string) : list string :=
  if bool_decide (name = EmptyString ∨ name = ".") then base
  else base ++ [name].

Definition path_exists (fs : FS) (p : list string) : bool :=
  bool_decide (is_Some (tree fs !! p)).

Definition is_dir (fs : FS) (p : list string) : bool :=
  match tree fs !! p with
  | Some Dir => true
  | _ => false
  end.

(** All prefixes of a path, shortest first, the path itself included. *)
Definition ancestors (p : list string) : list (list string) :=
  map (fun n => take n p) (seq 0 (S (length p))).

(** A system call on [p] fails with an error other than "not found" when
    [p] or a directory above it is in [stat_fails]. *)
Definition blocked (fs : FS) (p : list string) : bool :=
  existsb (fun q => bool_decide (q ∈ stat_fails fs)) (ancestors p).

(** [p.exists()]: "not found" is [False], any other error of the system
    call is raised. *)
Definition exists_path (fs : FS) (p : list string) : result bool :=
  if blocked fs p then Raise OSError else Ok (path_exists fs p).




(** [shutil.rmtree(p)]: the directory and all that is under it; on
    something that is not a directory it raises. *)
Definition rmtree (p : list string) (fs : FS) : result unit * FS :=
  if is_dir fs p
  then (Ok tt, set_tree (filter (fun kv : list string * node => ¬ (p `prefix_of` fst kv))) fs)
  else (Raise OSError, fs).

(** A name that is longer than every component of every path of the tree,
    standing for the unused random name [NamedTemporaryFile] picks. *)
Definition longest_name (t : gmap (list string) node) : nat :=
  foldr Nat.max 0 (map (fun kv : list string * node =>
                          foldr Nat.max 0 (map String.length (fst kv)))
                       (map_to_list t)).

Fixpoint repeat_x (n : nat) : string :=
  match n with
  | O => EmptyString
  | S n' => String "x" (repeat_x n')
  end.

Definition temp_name (fs : FS) (suffix : string) : string :=
  "tmp" +:+ repeat_x (S (longest_name (tree fs))) +:+ suffix.

(** ** Lazy frames *)

#[warnings="-register-all"] Inductive LazyFrame :=
  | LFrame (df : DataFrame)
  | LScan (path : list string)
  | LSelect (names : list string) (lf : LazyFrame)
  | LFilterGe (bound : datetime) (lf : LazyFrame)
  | LFilterLt (bound : datetime) (lf : LazyFrame)
  | LConcat (lfs : list LazyFrame).

(** Reading a parquet file when the plan is run. *)
Definition scan_parquet (fs : FS) (path : list string) : result DataFrame :=
  match tree fs !! path with
  | Some (File (Parquet _ df)) => Ok df
  | Some (File _) => Raise ComputeError
  | Some Dir => Raise OSError
  | None => Raise OSError
  end.

(** [pl.concat(lazy_frames, how="vertical_relaxed")] when collected: the
    frames have to agree on their column names. *)
Definition concat_lazy (frames : list DataFrame) : result DataFrame :=
  match frames with
  | [] => Raise ValueError
  | f :: _ =>
      if forallb (fun g => bool_decide (columns g = columns f)) frames
      then Ok (mk_df (columns f) (concat (map rows frames)))
      else Raise ShapeError
  end.

(** [lf.collect()]. *)
Fixpoint collect (fs : FS) (lf : LazyFrame) : result DataFrame :=
  match lf with
  | LFrame df => Ok df
  | LScan path => scan_parquet fs path
  | LSelect names lf' => df ← collect fs lf'; select names df
  | LFilterGe bound lf' => df ← collect fs lf'; filter_ts (dt_leb bound) df
  | LFilterLt bound lf' => df ← collect fs lf'; filter_ts (fun t => dt_ltb t bound) df
  | LConcat lfs =>
      frames ← mapM_res (collect fs) lfs;
      concat_lazy frames
  end.

(** ** State and exceptions together *)

Definition M (A : Type) : Type := FS -> result A * FS.

#[global] Instance M_ret : MRet M := fun A a fs => (Ok a, fs).
#[global] Instance M_bind : MBind M := fun A B f m fs =>
  match m fs with
  | (Ok a, fs') => f a fs'
  | (Raise e, fs') => (Raise e, fs')
  end.

Definition lift {A} (r : result A) : M A := fun fs => (r, fs).
Definition reads {A} (f : FS -> result A) : M A := fun fs => (f fs, fs).
Definition gets {A} (f : FS -> A) : M A := fun fs => (Ok (f fs), fs).
Definition modify (f : FS -> FS) : M unit := fun fs => (Ok tt, f fs).

(** A [for] loop whose body may raise; the results are collected. *)
Fixpoint for_each {A B} (f : A -> M B) (l : list A) : M (list B) :=
  match l with
  | [] => mret []
  | x :: l' => y ← f x; ys ← for_each f l'; mret (y :: ys)
  end.

(** [p.mkdir(exist_ok=True)]: an existing directory is left alone, an
    existing file of that name is an error. *)
Definition mkdir_node (p : list string) : M unit := fun fs =>
  if blocked fs p then (Raise OSError, fs)
  else match tree fs !! p with
       | Some Dir => (Ok tt, fs)
       | Some (File _) => (Raise OSError, fs)
       | None => (Ok tt, set_tree <[p := Dir]> fs)
       end.

(** Without [parents=True] the system call finds the directory above or
    fails. *)
Definition mkdir (p : list string) : M unit := fun fs =>
  if is_dir fs (removelast p) then mkdir_node p fs else (Raise OSError, fs).

(** [p.mkdir(parents=True, exist_ok=True)]: the missing directories are
    made from the top down. *)
Definition mkdir_parents (p : list string) : M unit :=
  _ ← for_each mkdir_node (ancestors p); mret tt.

(** [tempfile.NamedTemporaryFile(dir=dir, suffix=suffix, delete=False)]: a
    new, still empty file in an existing directory. *)
Definition named_temporary_file (dir : list string) (suffix : string)
  : M (list string) := fun fs =>
  match tree fs !! dir with
  | Some Dir =>
      let p := dir ++ [temp_name fs suffix] in
      (Ok p, set_tree <[p := File Garbage]> fs)
  | _ => (Raise OSError, fs)
  end.

(** Writing the bytes of an open file; in a failing directory the write
    raises and the file keeps whatever partial bytes it has. *)
Definition write_bytes (p : list string) (c : content) : M unit := fun fs =>
  if bool_decide (removelast p ∈ write_fails fs) then (Raise OSError, fs)
  else match tree fs !! p with
       | Some Dir => (Raise OSError, fs)
       | _ => (Ok tt, set_tree <[p := File c]> fs)
       end.

(** [src.replace(dst)]: the rename; a file cannot replace a directory. *)
Definition replace_file (src dst : list string) : M unit := fun fs =>
  match tree fs !! src with
  | Some (File c) =>
      match tree fs !! dst with
      | Some Dir => (Raise OSError, fs)
      | _ => (Ok tt, set_tree (fun t => <[dst := File c]> (delete src t)) fs)
      end
  | _ => (Raise OSError, fs)
  end.

(** ** Storage configuration ([backend.py]) *)

Record StorageConfig := mk_config {
  base_path : list string;
  strategy : string;
  compression : option string;
  partition_granularity : string;
  atomic_writes : bool;
  enable_locking : bool;
  metadata_tracking : bool;
  generate_profile : bool
}.

(** What [write] accepts besides a key: an eager frame, a lazy frame, or a
    [DataObject] that carries the fields its key is built from. *)
Inductive frame_input :=
  | Eager (df : DataFrame)
  | Lazy (lf : LazyFrame).

Record DataObject := mk_data_object {
  object_data : frame_input;
  asset_class : string;
  frequency : string;
  symbol : string
}.

Inductive write_input :=
  | Frame (d : frame_input)
  | Object (o : DataObject).

Inductive write_output :=
  | WrotePath (p : list string)
  | WroteKey (k : string).

(** ** [HiveStorage] *)

Module HiveStorage.
Section methods.
Context (config : StorageConfig).

Definition metadata_dir : list string := base_path config ++ [".metadata"].

(** [__init__]: the base directory and [.metadata] are created. *)
Definition init : M unit :=
  _ ← mkdir_parents (base_path config);
  mkdir metadata_dir.

(** [self.base_path / key.replace("/", "_")]. *)
Definition key_dir_name (key : string) : string := replace_char "/" "_" key.
Definition key_path (key : string) : list string :=
  path_join (base_path config) (key_dir_name key).

Definition metadata_file (key : string) : list string :=
  metadata_dir ++ [key_dir_name key +:+ ".json"].

Definition _ensure_lazy (d : frame_input) : LazyFrame :=
  match d with
  | Eager df => LFrame df
  | Lazy lf => lf
  end.

Definition _get_partition_columns : list string :=
  let granularity := partition_granularity config in
  if bool_decide (granularity = "year") then ["year"]
  else if bool_decide (granularity = "month") then ["year"; "month"]
  else if bool_decide (granularity = "day") then ["year"; "month"; "day"]
  else if bool_decide (granularity = "hour") then ["year"; "month"; "day"; "hour"]
  else ["year"; "month"].

Definition _add_partition_columns (df : DataFrame) (partition_cols : list string)
  : result DataFrame :=
  let col_exprs :=
    (if bool_decide ("year" ∈ partition_cols) then [("year", year)] else [])
    ++ (if bool_decide ("month" ∈ partition_cols) then [("month", month)] else [])
    ++ (if bool_decide ("day" ∈ partition_cols) then [("day", day)] else [])
    ++ (if bool_decide ("hour" ∈ partition_cols) then [("hour", hour)] else []) in
  match col_exprs with
  | [] => Ok df
  | _ => with_columns col_exprs df
  end.

Definition _build_partition_path (base : list string) (partition_cols : list string)
    (values : list value) : list string :=
  base ++ zip_with (fun col val => col +:+ "=" +:+ py_str val) partition_cols values.

Definition _extract_partition_values (path : list string) (partition_cols : list string)
  : result (gmap string Z) :=
  foldl (fun acc part =>
           values ← acc;
           match split_eq part with
           | Some (col, val) =>
               if bool_decide (col ∈ partition_cols)
               then n ← py_int val; Ok (<[col := n]> values)
               else Ok values
           | None => Ok values
           end)
        (Ok ∅) path.

Definition _partition_in_range (partition_values : gmap string Z)
    (start_date end_date : option datetime) : bool :=
  let y := partition_values !! "year" in
  let m := partition_values !! "month" in
  let d := partition_values !! "day" in
  let h := partition_values !! "hour" in
  let starts (p : datetime -> bool) := from_option p false start_date in
  let ends (p : datetime -> bool) := from_option p false end_date in
  let eqf (o : option Z) (z : Z) := bool_decide (o = Some z) in
  if match y with
     | Some yv =>
         starts (fun s => yv <? year s)%Z || ends (fun e => yv >? year e)%Z
     | None => false
     end then false
  else if match m with
     | Some mv =>
         starts (fun s => eqf y (year s) && (mv <? month s)%Z)
         || ends (fun e => eqf y (year e) && (mv >? month e)%Z)
     | None => false
     end then false
  else if match d with
     | Some dv =>
         starts (fun s => eqf y (year s) && eqf m (month s) && (dv <? day s)%Z)
         || ends (fun e => eqf y (year e) && eqf m (month e) && (dv >? day e)%Z)
     | None => false
     end then false
  else if match h with
     | Some hv =>
         starts (fun s => eqf y (year s) && eqf m (month s) && eqf d (day s)
                          && (hv <? hour s)%Z)
         || ends (fun e => eqf y (year e) && eqf m (month e) && eqf d (day e)
                           && (hv >? hour e)%Z)
     | None => false
     end then false
  else true.

(** One component of the glob pattern, [col=*]. *)
Definition matches_col (col part : string) : bool :=
  match split_eq part with
  | Some (c, _) => bool_decide (c = col)
  | None => false
  end.

(** [rel] matches ["year=*/.../data.parquet"]. *)
Definition matches_pattern (partition_cols : list string) (rel : list string) : bool :=
  bool_decide (length rel = S (length partition_cols))
  && forallb (fun cp => matches_col (fst cp) (snd cp)) (zip partition_cols rel)
  && bool_decide (last rel = Some "data.parquet").

(** [key_path.glob(pattern)], in the order the system yields the paths. *)
Definition glob (fs : FS) (key_path : list string) (partition_cols : list string)
  : list (list string) :=
  List.filter (fun p => bool_decide (key_path `prefix_of` p)
                        && matches_pattern partition_cols (drop (length key_path) p))
              (map fst (map_to_list (tree fs))).

(** [sorted(paths)]. *)
Definition sorted_paths (paths : list (list string)) : list (list string) :=
  sort_by parts_leb paths.

Definition _find_partition_paths (fs : FS) (key_path : list string)
    (partition_cols : list string) (start_date end_date : option datetime)
  : result (list (list string)) :=
  match start_date, end_date with
  | None, None => Ok (glob fs key_path partition_cols)
  | _, _ =>
      kept ← mapM_res (fun parquet_path =>
                  partition_values ← _extract_partition_values parquet_path partition_cols;
                  Ok (_partition_in_range partition_values start_date end_date,
                      parquet_path))
               (sorted_paths (glob fs key_path partition_cols));
      Ok (map snd (List.filter fst kept))
  end.

Definition exists_ (fs : FS) (key : string) : result bool :=
  exists_path fs (key_path key).

Definition read (fs : FS) (key : string) (start_date end_date : option datetime)
    (cols : option (list string)) : result LazyFrame :=
  found ← exists_path fs (key_path key);
  if negb found then Raise KeyError
  else
    let partition_cols := _get_partition_columns in
    partition_paths ← _find_partition_paths fs (key_path key) partition_cols
                         start_date end_date;
    match partition_paths with
    | [] => Ok (LFrame empty_frame)
    | _ =>
        let lazy_frames :=
          map (fun path =>
                 let lf := LScan path in
                 let lf := match cols with
                           | Some (c :: cs) => LSelect (c :: cs) lf
                           | _ => lf
                           end in
                 let lf := match start_date with
                           | Some s => LFilterGe s lf
                           | None => lf
                           end in
                 match end_date with
                 | Some e => LFilterLt e lf
                 | None => lf
                 end)
              partition_paths in
        match lazy_frames with
        | [lf] => Ok lf
        | _ => Ok (LConcat lazy_frames)
        end
    end.


Definition delete (key : string) : M bool :=
  found ← reads (fun fs => exists_path fs (key_path key));
  if found : bool then
    _ ← rmtree (key_path key);
    has_metadata ← reads (fun fs => exists_path fs (metadata_file key));
    _ ← (if has_metadata : bool
         then modify (set_tree (base.delete (metadata_file key)))
         else mret tt);
    mret true
  else mret false.

(** [json.load] of an open metadata file. *)
Definition load_json (fs : FS) (path : list string) : result (gmap string json) :=
  match tree fs !! path with
  | Some (File (JsonDoc doc)) => Ok doc
  | Some (File _) => Raise ValueError
  | _ => Raise OSError
  end.

Definition get_metadata (fs : FS) (key : string) : result (option (gmap string json)) :=
  found ← exists_path fs (metadata_file key);
  if found : bool then doc ← load_json fs (metadata_file key); Ok (Some doc)
  else Ok None.

(** [self.config.compression or "zstd"]. *)
Definition codec : string :=
  match compression config with
  | Some c => if bool_decide (c = EmptyString) then "zstd" else c
  | None => "zstd"
  end.

(** The temporary file is made next to the target, the frame is written
    into it, and it is renamed onto the target.  It is not deleted when the
    write raises ([delete=False]). *)
Definition _atomic_write (df : DataFrame) (target_path : list string) : M unit :=
  tmp_path ← named_temporary_file (removelast target_path) ".parquet.tmp";
  _ ← write_bytes tmp_path (Parquet codec df);
  replace_file tmp_path target_path.

Definition _write_metadata_file (path : list string) (metadata : gmap string json)
  : M unit :=
  tmp_path ← named_temporary_file (removelast path) ".json.tmp";
  _ ← write_bytes tmp_path (JsonDoc metadata);
  replace_file tmp_path path.

Definition _update_metadata (key : string) (metadata : gmap string json) : M unit :=
  if enable_locking config
  then _write_metadata_file (metadata_file key) metadata
  else _write_metadata_file (metadata_file key) metadata.

(** [str(partition_path.relative_to(self.base_path))]. *)
Definition relative_to_base (p : list string) : result string :=
  if bool_decide (base_path config `prefix_of` p)
  then Ok (join_slash (drop (length (base_path config)) p))
  else Raise ValueError.

(** The document [write] hands to [_update_metadata]. *)
Definition write_record (now : datetime) (partitions_written : list string)
    (df : DataFrame) (metadata : option (list (string * json))) : gmap string json :=
  list_to_map
    [("last_updated", JStr (isoformat now));
     ("partitions", JList (map JStr partitions_written));
     ("row_count", JInt (height df));
     ("schema", JList (map JStr (columns df)));
     ("custom", JObj (default [] metadata))].

(** The body of [write] for a frame and a key. *)
Definition write_frame (now : datetime) (data : frame_input) (key : string)
    (metadata : option (list (string * json))) : M (list string) :=
  df ← (fun fs => (collect fs (_ensure_lazy data), fs));
  if negb (bool_decide ("timestamp" ∈ columns df)) then lift (Raise ValueError)
  else
    let partition_cols := _get_partition_columns in
    df ← lift (_add_partition_columns df partition_cols);
    _ ← mkdir (key_path key);
    groups ← lift (group_by partition_cols df);
    partitions_written ←
      for_each (fun g : list value * DataFrame =>
                  let partition_path :=
                    _build_partition_path (key_path key) partition_cols (fst g) in
                  _ ← mkdir_parents partition_path;
                  partition_df ← lift (drop_columns partition_cols (snd g));
                  let file_path := partition_path ++ ["data.parquet"] in
                  _ ← _atomic_write partition_df file_path;
                  lift (relative_to_base partition_path))
               groups;
    _ ← (if metadata_tracking config then
           _update_metadata key (write_record now partitions_written df metadata)
         else mret tt);
    mret (key_path key).

Definition write (now : datetime) (data : write_input) (key : option string)
    (metadata : option (list (string * json))) : M write_output :=
  match data with
  | Object o =>
      let storage_key := asset_class o +:+ "/" +:+ frequency o +:+ "/" +:+ symbol o in
      _ ← write_frame now (object_data o) storage_key None;
      mret (WroteKey storage_key)
  | Frame d =>
      match key with
      | None => lift (Raise ValueError)
      | Some k => p ← write_frame now d k metadata; mret (WrotePath p)
      end
  end.

Definition get_latest_timestamp (fs : FS) (symbol provider : string)
  : result (option value) :=
  let key := provider +:+ "/" +:+ symbol in
  found ← exists_ fs key;
  if negb found then Ok None
  else
    try_except
      (lf ← read fs key None None None;
       df ← collect fs (LSelect ["timestamp"] lf);
       if is_empty df then Ok None
       else vs ← col_values "timestamp" df; Ok (max_value vs))
      (Ok None).

Definition update_combined_file (now : datetime) (data : DataFrame)
    (symbol provider : string) : M Z :=
  let key := provider +:+ "/" +:+ symbol in
  found ← reads (fun fs => exists_ fs key);
  combined ← (if found : bool then
                existing_df ← (fun fs => (lf ← read fs key None None None; collect fs lf, fs));
                lift (concat_df [existing_df; data])
              else mret data);
  let rows_before := height combined in
  combined ← lift (u ← unique_last "timestamp" combined; sort "timestamp" u);
  let rows_after := height combined in
  _ ← write now (Frame (Eager combined)) (Some key) None;
  mret (rows_after - rows_before)%Z.

Definition read_data (fs : FS) (symbol provider : string)
    (start_time end_time : option datetime) : result DataFrame :=
  let key := provider +:+ "/" +:+ symbol in
  found ← exists_ fs key;
  if negb found then Ok empty_frame
  else lf ← read fs key start_time end_time None; collect fs lf.

(** One entry of [update_history]. *)
Definition history_entry (last_update : datetime) (records_added : Z)
    (chunk_file : string) : json :=
  JObj [("timestamp", JStr (isoformat last_update));
        ("records_added", JInt records_added);
        ("chunk_file", JStr chunk_file)].

(** [l[-100:]] when [len(l) > 100]. *)
Definition cap_history (l : list json) : list json :=
  if Nat.ltb 100 (length l) then drop (length l - 100) l else l.

(** The document [update_metadata] starts from when the key has none. *)
Definition new_metadata (symbol provider : string) (last_update : datetime)
  : gmap string json :=
  list_to_map
    [("symbol", JStr symbol);
     ("provider", JStr provider);
     ("first_update", JStr (isoformat last_update));
     ("update_history", JList [])].

Definition update_metadata (symbol provider : string) (last_update : datetime)
    (records_added : Z) (chunk_file : string) : M unit :=
  let key := provider +:+ "/" +:+ symbol in
  metadata ← reads (fun fs =>
                found ← exists_path fs (metadata_file key);
                if found : bool then load_json fs (metadata_file key)
                else Ok (new_metadata symbol provider last_update));
  let metadata := <["last_update" := JStr (isoformat last_update)]> metadata in
  let metadata := match metadata !! "update_history" with
                  | None => <["update_history" := JList []]> metadata
                  | Some _ => metadata
                  end in
  match metadata !! "update_history" with
  | Some (JList history) =>
      let history := history ++ [history_entry last_update records_added chunk_file] in
      _update_metadata key (<["update_history" := JList (cap_history history)]> metadata)
  | _ => lift (Raise AttributeError)
  end.
End methods.
End HiveStorage.

(** ** Vocabulary of the statements *)

(** The timestamp of a row, when the frame has the column and the cell is
    a datetime. *)
Definition row_time (cols : list string) (r : row) : option datetime :=
  match cell cols "timestamp" r with
  | Ok (VTime t) => Some t
  | _ => None
  end.

(** The part of a timestamp a partition column holds. *)
Definition field_of (col : string) : datetime -> Z :=
  if bool_decide (col = "year") then year
  else if bool_decide (col = "month") then month
  else if bool_decide (col = "day") then day
  else hour.

(** The values of the partition columns for a timestamp. *)
Definition partition_key (partition_cols : list string) (t : datetime) : list value :=
  map (fun c => VInt (field_of c t)) partition_cols.

(** The [data.parquet] file in which [write] puts a row of timestamp [t]. *)
Definition partition_file (config : StorageConfig) (key : string) (t : datetime)
  : list string :=
  HiveStorage._build_partition_path (HiveStorage.key_path config key)
    (HiveStorage._get_partition_columns config)
    (partition_key (HiveStorage._get_partition_columns config) t)
  ++ ["data.parquet"].

(** Column names are distinct and every row has one cell per column. *)
Definition well_formed (df : DataFrame) : bool :=
  bool_decide (NoDup (columns df))
  && forallb (fun r => Nat.eqb (length r) (length (columns df))) (rows df).

(** No column of the frame carries the name of a partition column. *)
Definition no_partition_named_column (config : StorageConfig) (df : DataFrame) : bool :=
  forallb (fun c => bool_decide (c ∉ columns df)) (HiveStorage._get_partition_columns config).

(** Every row has a datetime in its [timestamp] cell. *)
Definition timestamps_valid (df : DataFrame) : bool :=
  forallb (fun r => bool_decide (is_Some (row_time (columns df) r))) (rows df).

(** The files [write] creates or replaces for a frame. *)
Definition partition_files (config : StorageConfig) (key : string) (df : DataFrame)
  : list (list string) :=
  omap (fun r => partition_file config key <$> row_time (columns df) r) (rows df).

(** The partition files of a key that exist. *)
Definition stored_files (config : StorageConfig) (fs : FS) (key : string)
  : list (list string) :=
  HiveStorage.glob fs (HiveStorage.key_path config key)
    (HiveStorage._get_partition_columns config).

(** The timestamp of a row of a frame whose timestamps are valid. *)
Definition time_of (cols : list string) (r : row) : datetime :=
  default (mk_datetime 0 0 0 0 0 0 0) (row_time cols r).

Definition row_key (cols partition_cols : list string) (r : row) : list value :=
  partition_key partition_cols (time_of cols r).

(** The rows of one partition, in their order. *)
Definition rows_with_key (cols partition_cols : list string) (k : list value)
    (rs : list row) : list row :=
  List.filter (fun r => bool_decide (row_key cols partition_cols r = k)) rs.

(** The net effect of a successful [mkdir] on the tree. *)
Definition mkdir_one (p : list string) (t : gmap (list string) node)
  : gmap (list string) node :=
  match t !! p with
  | Some _ => t
  | None => <[p := Dir]> t
  end.

(** The net effect on the tree of writing one partition: its directories
    are there and its [data.parquet] holds the frame. *)
Definition put_partition (codec : string) (t : gmap (list string) node)
    (e : list string * DataFrame) : gmap (list string) node :=
  <[fst e ++ ["data.parquet"] := File (Parquet codec (snd e))]>
    (foldl (fun t q => mkdir_one q t) t (ancestors (fst e))).

Definition partition_entries (config : StorageConfig) (key : string) (df : DataFrame)
  : list (list string * DataFrame) :=
  let pcs := HiveStorage._get_partition_columns config in
  map (fun k => (HiveStorage._build_partition_path (HiveStorage.key_path config key) pcs k,
                 mk_df (columns df) (rows_with_key (columns df) pcs k (rows df))))
      (first_occurrences (map (row_key (columns df) pcs) (rows df))).

Definition with_partition_columns (config : StorageConfig) (df : DataFrame) : DataFrame :=
  let pcs := HiveStorage._get_partition_columns config in
  mk_df (columns df ++ pcs) (map (fun r => r ++ row_key (columns df) pcs r) (rows df)).

(** The tree after a successful [write] of a frame. *)
Definition written_tree (config : StorageConfig) (now : datetime) (key : string)
    (df : DataFrame) (metadata : option (list (string * json))) (parts : list string)
    (t : gmap (list string) node) : gmap (list string) node :=
  let t' := foldl (put_partition (HiveStorage.codec config))
              (mkdir_one (HiveStorage.key_path config key) t)
              (partition_entries config key df) in
  if metadata_tracking config
  then <[HiveStorage.metadata_file config key :=
           File (JsonDoc (HiveStorage.write_record now parts
                            (with_partition_columns config df) metadata))]> t'
  else t'.

(** The frame a partition file holds. *)
Definition frame_at (fs : FS) (p : list string) : DataFrame :=
  match tree fs !! p with
  | Some (File (Parquet _ d)) => d
  | _ => empty_frame
  end.

(** Every partition file the key already has is one the frame has rows for. *)
Definition no_stale_partitions (config : StorageConfig) (fs : FS) (key : string)
    (df : DataFrame) : bool :=
  forallb (fun p => bool_decide (p ∈ partition_files config key df))
          (stored_files config fs key).




(** ** A small store used in the examples *)

Definition demo_config : StorageConfig :=
  mk_config ["data"] "hive" (Some "zstd") "month" true true true true.

Definition at_hour (y mo d h : Z) : datetime := mk_datetime y mo d h 0 0 0.

Definition demo_frame : DataFrame :=
  mk_df ["timestamp"; "close"]
    [[VTime (at_hour 2024 1 5 0); VInt 10];
     [VTime (at_hour 2024 2 1 0); VInt 20];
     [VTime (at_hour 2024 1 31 23); VInt 30];
     [VTime (at_hour 2024 10 1 0); VInt 40]].

Definition demo_now : datetime := at_hour 2025 1 1 0.

(** A fresh store: [HiveStorage(config)] on an empty disk. *)
Definition fresh_store : FS := snd (HiveStorage.init demo_config (mk_fs ∅ ∅ ∅)).

(** The store after [write(demo_frame, "yahoo/AAPL")]. *)
Definition demo_store : FS :=
  snd (HiveStorage.write demo_config demo_now (Frame (Eager demo_frame))
         (Some "yahoo/AAPL") None fresh_store).

Definition demo_partition : list string := ["data"; "yahoo_AAPL"; "year=2024"; "month=1"].

(** The same store on a disk where writing into one partition fails. *)
Definition demo_store_failing : FS := mk_fs (tree demo_store) {[demo_partition]} ∅.

(** The same store with one partition file damaged. *)
Definition demo_store_damaged : FS :=
  set_tree <[demo_partition ++ ["data.parquet"] := File Garbage]> demo_store.

Definition on_day (d : Z) (price : Z) : row := [VTime (at_hour 2024 1 d 0); VInt price].

(** Five stored rows, 1 to 5 January, and a chunk of ten rows, 3 to 12
    January: three of its timestamps are already stored. *)
Definition five_rows : DataFrame :=
  mk_df ["timestamp"; "close"] (map (fun d => on_day d (100 + d)) [1; 2; 3; 4; 5]%Z).

Definition ten_row_chunk : DataFrame :=
  mk_df ["timestamp"; "close"]
    (map (fun d => on_day d (200 + d)) [3; 4; 5; 6; 7; 8; 9; 10; 11; 12]%Z).

Definition five_row_store : FS :=
  snd (HiveStorage.write demo_config demo_now (Frame (Eager five_rows))
         (Some "yahoo/AAPL") None fresh_store).

(** [len(read_data(symbol, provider))]. *)
Definition stored_row_count (config : StorageConfig) (fs : FS) (symbol provider : string)
  : result Z :=
  df ← HiveStorage.read_data config fs symbol provider None None; Ok (height df).

(** Two January rows stored first, then a frame with one February row. *)
Definition january_rows : DataFrame :=
  mk_df ["timestamp"; "close"] [on_day 5 10; on_day 6 11].

Definition february_row : DataFrame :=
  mk_df ["timestamp"; "close"] [[VTime (at_hour 2024 2 1 0); VInt 20]].

Definition january_store : FS :=
  snd (HiveStorage.write demo_config demo_now (Frame (Eager january_rows))
         (Some "yahoo/AAPL") None fresh_store).

(** A frame that has a column named like a partition column, and a frame
    without rows. *)
Definition frame_with_year : DataFrame :=
  mk_df ["timestamp"; "year"; "close"] [[VTime (at_hour 2024 1 5 0); VInt 7; VInt 10]].

Definition frame_without_rows : DataFrame :=
  mk_df ["timestamp"; "close"] [].

(** The demo store with the key directory out of reach of [os.stat]: the
    call raises an [OSError] that [Path.exists] does not swallow
    (permission denied on the way, a name that is too long). *)
Definition demo_store_unreadable : FS :=
  mk_fs (tree demo_store) ∅ {[ HiveStorage.key_path demo_config "yahoo/AAPL" ]}.



(** * Properties *)

(** ** Results *)

Lemma mapM_res_map {A B} (f : A -> result B) (g : A -> B) (l : list A) :
  (forall x, x ∈ l -> f x = Ok (g x)) -> mapM_res f l = Ok (map g l).
Proof.
  induction l as [|x l IH]; intros H; simpl; [reflexivity|].
  rewrite (H x) by apply list_elem_of_here. simpl.
  rewrite IH; [reflexivity|]. intros y Hy. apply H. now apply list_elem_of_further.
Qed.

Lemma mapM_res_length {A B} (f : A -> result B) (l : list A) (ys : list B) :
  mapM_res f l = Ok ys -> length ys = length l.
Proof.
  revert ys. induction l as [|x l IH]; intros ys; simpl.
  - intros [= <-]. reflexivity.
  - destruct (f x); simpl; [|discriminate].
    destruct (mapM_res f l); simpl; [|discriminate].
    intros [= <-]. simpl. f_equal. now apply IH.
Qed.

(** ** Columns and cells *)

Lemma col_index_None (c : string) (cols : list string) :
  col_index c cols = None <-> c ∉ cols.
Proof.
  induction cols as [|x cols IH]; simpl.
  - split; [intros _ H; inversion H | reflexivity].
  - destruct (decide (x = c)) as [->|Hne].
    + split; [discriminate|]. intros H. exfalso. apply H, list_elem_of_here.
    + destruct (col_index c cols) eqn:E; simpl.
      * split; [discriminate|]. intros H. exfalso.
        destruct (proj1 (not_elem_of_cons _ _ _) H) as [_ H'].
        apply IH in H'. discriminate.
      * split; [|reflexivity]. intros _. apply not_elem_of_cons. split; [congruence|].
        now apply IH.
Qed.

Lemma col_index_Some_elem (c : string) (cols : list string) (i : nat) :
  col_index c cols = Some i -> c ∈ cols.
Proof.
  intros H. destruct (decide (c ∈ cols)) as [|Hn]; [assumption|].
  apply col_index_None in Hn. congruence.
Qed.

Lemma col_index_app_l (c : string) (cols more : list string) (i : nat) :
  col_index c cols = Some i -> col_index c (cols ++ more) = Some i.
Proof.
  revert i. induction cols as [|x cols IH]; intros i; simpl; [discriminate|].
  destruct (decide (x = c)); [trivial|].
  destruct (col_index c cols) eqn:E; simpl; [|discriminate].
  intros [= <-]. now rewrite (IH n0 eq_refl).
Qed.

Lemma col_index_app_r (c : string) (cols more : list string) :
  c ∉ cols -> col_index c (cols ++ more) = (fun i => length cols + i) <$> col_index c more.
Proof.
  induction cols as [|x cols IH]; intros Hn; simpl.
  - destruct (col_index c more); reflexivity.
  - apply not_elem_of_cons in Hn as [Hne Hn].
    destruct (decide (x = c)); [congruence|].
    rewrite IH by assumption. destruct (col_index c more); reflexivity.
Qed.

Lemma cell_app_l (cols more : list string) (c : string) (r extra : row) :
  c ∈ cols -> length r = length cols ->
  cell (cols ++ more) c (r ++ extra) = cell cols c r.
Proof.
  intros Hc Hlen. unfold cell.
  destruct (col_index c cols) as [i|] eqn:E.
  - rewrite (col_index_app_l _ _ _ _ E).
    assert (i < length cols) as Hi.
    { clear -E. revert i E. induction cols as [|x cols IH]; intros i; simpl; [discriminate|].
      destruct (decide (x = c)); [intros [= <-]; lia|].
      destruct (col_index c cols) eqn:E'; simpl; [|discriminate].
      intros [= <-]. specialize (IH _ eq_refl). lia. }
    rewrite lookup_app_l by lia. reflexivity.
  - apply col_index_None in E. contradiction.
Qed.

Lemma cell_app_r (cols more : list string) (c : string) (r extra : row) :
  c ∉ cols -> length r = length cols ->
  cell (cols ++ more) c (r ++ extra) = cell more c extra.
Proof.
  intros Hc Hlen. unfold cell. rewrite col_index_app_r by assumption.
  destruct (col_index c more) as [i|]; simpl; [|reflexivity].
  rewrite lookup_app_r by lia. replace (length cols + i - length r) with i by lia.
  reflexivity.
Qed.

(** ** Adding the partition columns *)

Lemma well_formed_spec (df : DataFrame) :
  well_formed df = true ->
  NoDup (columns df) /\ forall r, r ∈ rows df -> length r = length (columns df).
Proof.
  unfold well_formed. intros H. apply andb_true_iff in H as [H1 H2].
  split; [now apply bool_decide_eq_true in H1|].
  intros r Hr. rewrite forallb_forall in H2.
  apply Nat.eqb_eq, H2, list_elem_of_In, Hr.
Qed.

Lemma timestamps_valid_spec (df : DataFrame) (r : row) :
  timestamps_valid df = true -> r ∈ rows df ->
  cell (columns df) "timestamp" r = Ok (VTime (time_of (columns df) r)).
Proof.
  unfold timestamps_valid. rewrite forallb_forall. intros H Hr.
  specialize (H r (proj1 (list_elem_of_In _ _) Hr)).
  apply bool_decide_eq_true in H as [t Ht].
  unfold time_of. rewrite Ht. simpl. unfold row_time in Ht.
  destruct (cell (columns df) "timestamp" r) as [[| |t']|]; try discriminate.
  now injection Ht as ->.
Qed.

Lemma zip_with_map_r {A B C} (h : A -> B -> C) (g : A -> B) (l : list A) :
  zip_with h l (map g l) = map (fun x => h x (g x)) l.
Proof. induction l as [|x l IH]; simpl; [reflexivity|]. now rewrite IH. Qed.

Lemma zip_with_map_map {A B C D} (h : B -> C -> D) (f : A -> B) (g : A -> C) (l : list A) :
  zip_with h (map f l) (map g l) = map (fun x => h (f x) (g x)) l.
Proof. induction l as [|x l IH]; simpl; [reflexivity|]. now rewrite IH. Qed.

Lemma set_column_fresh (name : string) (cols : list string) (rs : list row)
    (ext : row -> row) (f : row -> value) :
  name ∉ cols ->
  set_column name (map f rs) (mk_df cols (map ext rs))
  = mk_df (cols ++ [name]) (map (fun r => ext r ++ [f r]) rs).
Proof.
  intros Hn. unfold set_column. simpl.
  rewrite (proj2 (col_index_None _ _) Hn). f_equal.
  apply (zip_with_map_map (fun (r : list value) v => r ++ [v]) ext f rs).
Qed.

Lemma with_columns_fresh (exprs : list (string * (datetime -> Z))) (df : DataFrame) :
  timestamps_valid df = true ->
  "timestamp" ∈ columns df ->
  NoDup (map fst exprs) ->
  (forall n, n ∈ map fst exprs -> n ∉ columns df) ->
  with_columns exprs df
  = Ok (mk_df (columns df ++ map fst exprs)
          (map (fun r => r ++ map (fun e : string * (datetime -> Z) =>
                                     VInt (snd e (time_of (columns df) r))) exprs)
               (rows df))).
Proof.
  intros Hts Hcol Hnd Hfresh. unfold with_columns, col_values.
  destruct (col_index "timestamp" (columns df)) eqn:E;
    [|apply col_index_None in E; contradiction].
  rewrite (mapM_res_map _ (fun r => VTime (time_of (columns df) r)))
    by (intros r Hr; now apply timestamps_valid_spec).
  simpl.
  rewrite (mapM_res_map _ (fun e : string * (datetime -> Z) =>
             (fst e, map (fun r => VInt (snd e (time_of (columns df) r))) (rows df)))).
  2:{ intros e _.
      rewrite (mapM_res_map _ (fun v => match v with VTime t => VInt (snd e t) | _ => v end)).
      - simpl. f_equal. f_equal. rewrite map_map. reflexivity.
      - intros v Hv. apply list_elem_of_In, in_map_iff in Hv as (r & <- & _). reflexivity. }
  simpl. f_equal.
  destruct df as [cols rs]. simpl in *. clear Hts Hcol E.
  assert (forall done todo,
            NoDup (map fst todo) ->
            (forall n, n ∈ map fst todo -> n ∉ cols ++ map fst done) ->
            foldl (fun acc (nv : string * list value) => set_column (fst nv) (snd nv) acc)
              (mk_df (cols ++ map fst done)
                 (map (fun r => r ++ map (fun e : string * (datetime -> Z) =>
                                            VInt (snd e (time_of cols r))) done) rs))
              (map (fun e : string * (datetime -> Z) =>
                      (fst e, map (fun r => VInt (snd e (time_of cols r))) rs)) todo)
            = mk_df (cols ++ map fst (done ++ todo))
                (map (fun r => r ++ map (fun e : string * (datetime -> Z) =>
                                           VInt (snd e (time_of cols r))) (done ++ todo)) rs))
    as Hgen.
  { intros done todo. revert done. induction todo as [|e todo IH]; intros done Hnd' Hfr.
    - simpl. rewrite app_nil_r. reflexivity.
    - simpl.
      rewrite (set_column_fresh (fst e) (cols ++ map fst done) rs
                 (fun r => r ++ map (fun e0 : string * (datetime -> Z) =>
                                       VInt (snd e0 (time_of cols r))) done)
                 (fun r => VInt (snd e (time_of cols r)))).
      2:{ apply Hfr. simpl. apply list_elem_of_here. }
      specialize (IH (done ++ [e])).
      rewrite map_app, app_assoc in IH. simpl in IH.
      replace (map (fun r => (r ++ map (fun e0 : string * (datetime -> Z) =>
                                         VInt (snd e0 (time_of cols r))) done)
                             ++ [VInt (snd e (time_of cols r))]) rs)
        with (map (fun r => r ++ map (fun e0 : string * (datetime -> Z) =>
                                        VInt (snd e0 (time_of cols r))) (done ++ [e])) rs).
      2:{ apply map_ext. intros r. rewrite map_app, app_assoc. reflexivity. }
      rewrite IH.
      + rewrite <- app_assoc. reflexivity.
      + simpl in Hnd'. now apply NoDup_cons in Hnd' as [_ ?].
      + intros nm Hnm. simpl in Hnd'. apply NoDup_cons in Hnd' as [Hne _].
        intros Hin. rewrite <- app_assoc in Hin.
        apply elem_of_app in Hin as [Hin|Hin].
        * apply (Hfr nm); [simpl; now apply list_elem_of_further|].
          apply elem_of_app. now left.
        * apply elem_of_app in Hin as [Hin|Hin].
          -- apply (Hfr nm); [simpl; now apply list_elem_of_further|].
             apply elem_of_app. now right.
          -- apply list_elem_of_singleton in Hin. subst. contradiction. }
  specialize (Hgen [] exprs Hnd). simpl in Hgen.
  assert (map (fun r : list value => r ++ []) rs = rs) as Hid.
  { rewrite <- (map_id rs) at 2. apply map_ext. intros r. now rewrite app_nil_r. }
  rewrite Hid, (app_nil_r cols) in Hgen.
  apply Hgen. exact Hfresh.
Qed.

Lemma partition_columns_cases (config : StorageConfig) :
  HiveStorage._get_partition_columns config ∈
    [["year"]; ["year"; "month"]; ["year"; "month"; "day"]; ["year"; "month"; "day"; "hour"]].
Proof.
  unfold HiveStorage._get_partition_columns.
  repeat case_bool_decide; set_solver.
Qed.

Lemma add_partition_columns_exprs (config : StorageConfig) (df : DataFrame) :
  HiveStorage._add_partition_columns df (HiveStorage._get_partition_columns config)
  = with_columns (map (fun c => (c, field_of c)) (HiveStorage._get_partition_columns config)) df.
Proof.
  pose proof (partition_columns_cases config) as H.
  repeat (apply elem_of_cons in H as [->|H]); [reflexivity..|inversion H].
Qed.

Lemma partition_columns_NoDup (config : StorageConfig) :
  NoDup (HiveStorage._get_partition_columns config).
Proof.
  pose proof (partition_columns_cases config) as H.
  repeat (apply elem_of_cons in H as [->|H]); [..|inversion H];
    (apply (bool_decide_unpack _); vm_compute; exact I).
Qed.

Lemma partition_columns_not_timestamp (config : StorageConfig) :
  "timestamp" ∉ HiveStorage._get_partition_columns config.
Proof.
  pose proof (partition_columns_cases config) as H.
  repeat (apply elem_of_cons in H as [->|H]); [..|inversion H];
    (apply (bool_decide_unpack _); vm_compute; exact I).
Qed.

Lemma no_partition_named_column_spec (config : StorageConfig) (df : DataFrame) (c : string) :
  no_partition_named_column config df = true ->
  c ∈ HiveStorage._get_partition_columns config -> c ∉ columns df.
Proof.
  unfold no_partition_named_column. rewrite forallb_forall. intros H Hc.
  apply list_elem_of_In, H in Hc. now apply bool_decide_eq_true in Hc.
Qed.

Section pipeline.
Context (config : StorageConfig) (df : DataFrame).
Let pcs := HiveStorage._get_partition_columns config.
Let cols := columns df.
Let key := row_key cols pcs.
Let ext := fun r : list value => r ++ key r.
Hypothesis Hwf : well_formed df = true.
Hypothesis Hclash : no_partition_named_column config df = true.
Hypothesis Hts : timestamps_valid df = true.
Hypothesis Hcol : "timestamp" ∈ columns df.

Lemma add_partition_columns_spec :
  HiveStorage._add_partition_columns df pcs = Ok (mk_df (cols ++ pcs) (map ext (rows df))).
Proof.
  subst pcs. rewrite add_partition_columns_exprs.
  rewrite with_columns_fresh; try assumption.
  - rewrite map_map. simpl. rewrite map_id. f_equal. f_equal.
    apply map_ext. intros r. unfold ext, key, row_key, partition_key.
    rewrite map_map. reflexivity.
  - rewrite map_map. simpl. rewrite map_id. apply partition_columns_NoDup.
  - rewrite map_map. simpl. rewrite map_id. intros n Hn.
    now apply (no_partition_named_column_spec config).
Qed.
End pipeline.

Lemma mapM_res_map_map {A B C} (f : B -> result C) (h : A -> B) (g : A -> C) (l : list A) :
  (forall x, x ∈ l -> f (h x) = Ok (g x)) -> mapM_res f (map h l) = Ok (map g l).
Proof.
  induction l as [|x l IH]; intros H; simpl; [reflexivity|].
  rewrite (H x) by apply list_elem_of_here. simpl.
  rewrite IH; [reflexivity|]. intros y Hy. apply H. now apply list_elem_of_further.
Qed.

Lemma col_index_lookup (c : string) (cols : list string) (i : nat) :
  col_index c cols = Some i -> cols !! i = Some c.
Proof.
  revert i. induction cols as [|x cols IH]; intros i; simpl; [discriminate|].
  destruct (decide (x = c)) as [->|]; [intros [= <-]; reflexivity|].
  destruct (col_index c cols) eqn:E; simpl; [|discriminate].
  intros [= <-]. simpl. now apply IH.
Qed.

Lemma cell_map (cols : list string) (g : string -> value) (c : string) :
  c ∈ cols -> cell cols c (map g cols) = Ok (g c).
Proof.
  intros Hc. unfold cell. destruct (col_index c cols) as [i|] eqn:E.
  - apply col_index_lookup in E.
    change (map g cols) with (g <$> cols). rewrite list_lookup_fmap, E. reflexivity.
  - apply col_index_None in E. contradiction.
Qed.

Lemma filter_map_keyed {A K B} `{EqDecision K} (key : A -> K) (ext : A -> B) (k : K)
    (l : list A) :
  map snd (List.filter (fun kr : K * B => bool_decide (fst kr = k))
             (zip (map key l) (map ext l)))
  = map ext (List.filter (fun x => bool_decide (key x = k)) l).
Proof.
  induction l as [|x l IH]; simpl; [reflexivity|].
  destruct (bool_decide (key x = k)); simpl; now rewrite IH.
Qed.

Lemma mask_row_app (P : string -> bool) (cols more : list string) (r extra : list value) :
  length r = length cols ->
  (forall c, c ∈ cols -> P c = true) ->
  (forall c, c ∈ more -> P c = false) ->
  mask_row (map P (cols ++ more)) (r ++ extra) = r.
Proof.
  revert r. induction cols as [|c cols IH]; intros r Hlen Ht Hf.
  - destruct r; [|discriminate]. simpl.
    revert extra. induction more as [|m more IHm]; intros extra; simpl; [reflexivity|].
    destruct extra as [|v extra]; [reflexivity|].
    rewrite (Hf m) by apply list_elem_of_here.
    apply IHm. intros c Hc. apply Hf. now apply list_elem_of_further.
  - destruct r as [|v r]; [discriminate|]. simpl.
    rewrite (Ht c) by apply list_elem_of_here. f_equal.
    apply IH; [simpl in Hlen; lia| |assumption].
    intros c' Hc'. apply Ht. now apply list_elem_of_further.
Qed.

Lemma filter_all {A} (P : A -> bool) (l : list A) :
  (forall x, x ∈ l -> P x = true) -> List.filter P l = l.
Proof.
  induction l as [|x l IH]; intros H; simpl; [reflexivity|].
  rewrite (H x) by apply list_elem_of_here. f_equal. apply IH.
  intros y Hy. apply H. now apply list_elem_of_further.
Qed.

Lemma filter_none {A} (P : A -> bool) (l : list A) :
  (forall x, x ∈ l -> P x = false) -> List.filter P l = [].
Proof.
  induction l as [|x l IH]; intros H; simpl; [reflexivity|].
  rewrite (H x) by apply list_elem_of_here. apply IH.
  intros y Hy. apply H. now apply list_elem_of_further.
Qed.

Lemma map_mask_ext (mask : list bool) (ext : list value -> list value) (rs : list (list value)) :
  (forall r, r ∈ rs -> mask_row mask (ext r) = r) ->
  map (mask_row mask) (map ext rs) = rs.
Proof.
  induction rs as [|r rs IH]; intros H; simpl; [reflexivity|].
  rewrite (H r) by apply list_elem_of_here. f_equal. apply IH.
  intros y Hy. apply H. now apply list_elem_of_further.
Qed.

Section pipeline2.
Context (config : StorageConfig) (df : DataFrame).
Let pcs := HiveStorage._get_partition_columns config.
Let cols := columns df.
Let key := row_key cols pcs.
Let ext := fun r : list value => r ++ key r.
Hypothesis Hwf : well_formed df = true.
Hypothesis Hclash : no_partition_named_column config df = true.

Lemma key_cells (r : list value) :
  length r = length cols ->
  mapM_res (fun c => cell (cols ++ pcs) c (ext r)) pcs = Ok (key r).
Proof.
  intros Hlen. unfold ext, key, row_key, partition_key.
  apply (mapM_res_map _ (fun c => VInt (field_of c (time_of cols r)))).
  intros c Hc. rewrite cell_app_r; [|now apply (no_partition_named_column_spec config)|assumption].
  now apply (cell_map pcs (fun c => VInt (field_of c (time_of cols r)))).
Qed.

Lemma group_by_spec (rs : list (list value)) :
  (forall r, r ∈ rs -> length r = length cols) ->
  group_by pcs (mk_df (cols ++ pcs) (map ext rs))
  = Ok (map (fun k => (k, mk_df (cols ++ pcs) (map ext (rows_with_key cols pcs k rs))))
          (first_occurrences (map key rs))).
Proof.
  intros Hlen. unfold group_by. simpl.
  rewrite (mapM_res_map_map _ ext key) by (intros r Hr; apply key_cells, Hlen, Hr).
  simpl. f_equal. apply map_ext. intros k. f_equal. f_equal.
  apply filter_map_keyed.
Qed.

Lemma drop_columns_spec (rs : list (list value)) :
  (forall r, r ∈ rs -> length r = length cols) ->
  drop_columns pcs (mk_df (cols ++ pcs) (map ext rs)) = Ok (mk_df cols rs).
Proof.
  intros Hlen. unfold drop_columns. simpl.
  assert (forall c, c ∈ cols -> bool_decide (c ∉ pcs) = true) as Hkeep.
  { intros c Hc. apply bool_decide_eq_true. intros Hp.
    now apply (no_partition_named_column_spec config df c Hclash Hp). }
  assert (forall c, c ∈ pcs -> bool_decide (c ∉ pcs) = false) as Hdrop.
  { intros c Hc. apply bool_decide_eq_false. tauto. }
  replace (forallb (fun n => bool_decide (n ∈ cols ++ pcs)) pcs) with true.
  2:{ symmetry. apply forallb_forall. intros c Hc. apply bool_decide_eq_true.
      apply elem_of_app. right. now apply list_elem_of_In. }
  f_equal. f_equal.
  - rewrite List.filter_app, (filter_all _ cols Hkeep), (filter_none _ pcs Hdrop).
    apply app_nil_r.
  - apply map_mask_ext. intros r Hr. unfold ext.
    apply mask_row_app; [now apply Hlen|assumption|assumption].
Qed.
End pipeline2.

(** ** Temporary names are unused *)

Lemma foldr_max_le (l : list nat) (n : nat) : n ∈ l -> n <= foldr Nat.max 0 l.
Proof.
  induction l as [|m l IH]; intros Hin.
  - inversion Hin.
  - apply elem_of_cons in Hin as [->|Hin]; simpl; [lia|].
    specialize (IH Hin). lia.
Qed.

Lemma longest_name_bound (t : gmap (list string) node) (p : list string) (s : string) :
  is_Some (t !! p) -> s ∈ p -> String.length s <= longest_name t.
Proof.
  intros [n Hn] Hs. unfold longest_name.
  apply elem_of_map_to_list in Hn.
  transitivity (foldr Nat.max 0 (map String.length p)).
  - apply foldr_max_le. apply list_elem_of_In, in_map, list_elem_of_In, Hs.
  - apply foldr_max_le. apply list_elem_of_In.
    apply (in_map (fun kv : list string * node =>
                     foldr Nat.max 0 (map String.length (fst kv))) _ (p, n)).
    apply list_elem_of_In, Hn.
Qed.

Lemma length_string_app (a b : string) :
  String.length (a +:+ b) = String.length a + String.length b.
Proof. induction a as [|c a IH]; simpl; [reflexivity|]. now rewrite IH. Qed.

Lemma length_repeat_x (n : nat) : String.length (repeat_x n) = n.
Proof. induction n as [|n IH]; simpl; [reflexivity|]. now rewrite IH. Qed.

Lemma temp_name_long (fs : FS) (suffix : string) :
  longest_name (tree fs) < String.length (temp_name fs suffix).
Proof.
  unfold temp_name. rewrite !length_string_app, length_repeat_x. simpl. lia.
Qed.

Lemma temp_name_fresh (fs : FS) (parent : list string) (suffix : string) :
  tree fs !! (parent ++ [temp_name fs suffix]) = None.
Proof.
  destruct (tree fs !! (parent ++ [temp_name fs suffix])) as [n|] eqn:E; [|reflexivity].
  exfalso.
  assert (String.length (temp_name fs suffix) <= longest_name (tree fs)) as Hle.
  { apply (longest_name_bound _ (parent ++ [temp_name fs suffix])); [eauto|].
    apply elem_of_app. right. apply list_elem_of_singleton. reflexivity. }
  pose proof (temp_name_long fs suffix). lia.
Qed.

Lemma temp_name_not_data (fs : FS) (suffix : string) :
  temp_name fs suffix <> "data.parquet".
Proof. unfold temp_name. simpl. discriminate. Qed.

(** ** The atomic writer *)

Lemma set_tree_tree (f : gmap (list string) node -> gmap (list string) node) (fs : FS) :
  tree (set_tree f fs) = f (tree fs).
Proof. reflexivity. Qed.

Lemma set_tree_write_fails (f : gmap (list string) node -> gmap (list string) node) (fs : FS) :
  write_fails (set_tree f fs) = write_fails fs.
Proof. reflexivity. Qed.

Lemma set_tree_set_tree (f g : gmap (list string) node -> gmap (list string) node) (fs : FS) :
  set_tree f (set_tree g fs) = set_tree (fun t => f (g t)) fs.
Proof. reflexivity. Qed.

(** The temporary file, its bytes and the rename, when all three succeed:
    the target holds the new content and nothing else changes. *)
Lemma temp_write_replace_ok (dir : list string) (name suffix : string) (c : content) (fs : FS) :
  tree fs !! dir = Some Dir ->
  dir ∉ write_fails fs ->
  tree fs !! (dir ++ [name]) <> Some Dir ->
  (tmp_path ← named_temporary_file dir suffix;
   _ ← write_bytes tmp_path c;
   replace_file tmp_path (dir ++ [name])) fs
  = (Ok tt, set_tree <[dir ++ [name] := File c]> fs).
Proof.
  intros Hdir Hok Htarget.
  unfold mbind, M_bind, named_temporary_file. rewrite Hdir.
  unfold write_bytes. rewrite set_tree_write_fails, removelast_last.
  rewrite bool_decide_eq_false_2 by exact Hok.
  rewrite set_tree_tree, lookup_insert_eq.
  unfold replace_file. rewrite !set_tree_tree, lookup_insert_eq.
  set (tmp := dir ++ [temp_name fs suffix]).
  assert (tree fs !! tmp = None) as Hfresh by apply temp_name_fresh.
  destruct (decide (tmp = dir ++ [name])) as [Heq|Hne].
  - rewrite <- Heq, lookup_insert_eq.
    f_equal. rewrite !set_tree_set_tree. unfold set_tree. f_equal.
    rewrite insert_delete_eq, !insert_insert_eq. reflexivity.
  - rewrite !lookup_insert_ne by exact Hne.
    destruct (tree fs !! (dir ++ [name])) as [[|c0]|] eqn:E; [congruence| |];
      (f_equal; rewrite !set_tree_set_tree; unfold set_tree; f_equal;
       rewrite insert_insert_eq, delete_insert_id by exact Hfresh; reflexivity).
Qed.

Lemma atomic_write_ok (config : StorageConfig) (df : DataFrame) (dir : list string) (fs : FS) :
  tree fs !! dir = Some Dir ->
  dir ∉ write_fails fs ->
  tree fs !! (dir ++ ["data.parquet"]) <> Some Dir ->
  exists codec,
    HiveStorage._atomic_write config df (dir ++ ["data.parquet"]) fs
    = (Ok tt, set_tree <[dir ++ ["data.parquet"] := File (Parquet codec df)]> fs).
Proof.
  intros Hdir Hok Htarget. unfold HiveStorage._atomic_write.
  rewrite removelast_last. eexists.
  apply (temp_write_replace_ok dir "data.parquet" ".parquet.tmp" _ fs Hdir Hok Htarget).
Qed.

(** C5. When writing the temporary file fails, [_atomic_write] raises the
    error to its caller, the target [data.parquet] is what it was before
    (the old file, or still absent), and so is every other path that
    existed: at most the abandoned temporary file is new, and it is not a
    readable data file. *)
Theorem atomic_write_failure_leaves_target (config : StorageConfig) (df : DataFrame)
    (dir : list string) (fs : FS) :
  dir ∈ write_fails fs ->
  let target := dir ++ ["data.parquet"] in
  let out := HiveStorage._atomic_write config df target fs in
  fst out = Raise OSError
  /\ tree (snd out) !! target = tree fs !! target
  /\ (forall p, is_Some (tree fs !! p) -> tree (snd out) !! p = tree fs !! p)
  /\ (forall p c d, tree (snd out) !! p = Some (File (Parquet c d)) ->
                    tree fs !! p = Some (File (Parquet c d))).
Proof.
  intros Hfail target out. subst out target. unfold HiveStorage._atomic_write.
  rewrite removelast_last.
  unfold mbind, M_bind, named_temporary_file.
  destruct (tree fs !! dir) as [[|c0]|] eqn:Hdir;
    try (cbn [fst snd]; split; [reflexivity|]; split; [reflexivity|];
         split; [intros; reflexivity | intros ? ? ? H; exact H]).
  unfold write_bytes. rewrite set_tree_write_fails, removelast_last.
  rewrite bool_decide_eq_true_2 by exact Hfail.
  cbn [fst snd]. rewrite set_tree_tree. split; [reflexivity|].
  assert (forall p, p <> dir ++ [temp_name fs ".parquet.tmp"] ->
            <[dir ++ [temp_name fs ".parquet.tmp"] := File Garbage]> (tree fs) !! p
            = tree fs !! p) as Hother.
  { intros p Hp. apply lookup_insert_ne. congruence. }
  split; [|split].
  - apply Hother. intros Heq. apply app_inj_tail in Heq as [_ Heq].
    symmetry in Heq. revert Heq. apply temp_name_not_data.
  - intros p Hp. apply Hother. intros ->.
    rewrite temp_name_fresh in Hp. destruct Hp as [? ?]. discriminate.
  - intros p c d Hp.
    destruct (decide (p = dir ++ [temp_name fs ".parquet.tmp"])) as [->|Hne].
    + rewrite lookup_insert_eq in Hp. discriminate.
    + rewrite Hother in Hp by exact Hne. exact Hp.
Qed.
Lemma atomic_write_failure_leaves_target_witness :
  let target := demo_partition ++ ["data.parquet"] in
  let out := HiveStorage._atomic_write demo_config demo_frame target demo_store_failing in
  fst out = Raise OSError /\ tree (snd out) !! target = tree demo_store_failing !! target.
Proof.
  intros target out.
  assert (demo_partition ∈ write_fails demo_store_failing) as Hfail.
  { unfold demo_store_failing. cbn [write_fails]. apply elem_of_singleton_2. reflexivity. }
  destruct (atomic_write_failure_leaves_target demo_config demo_frame demo_partition
              demo_store_failing Hfail) as (H1 & H2 & _).
  split; [exact H1 | exact H2].
Defined.

(** ** Running the state monad *)

Lemma bind_ok_inv {A B} (m : M A) (f : A -> M B) (fs : FS) (b : B) (fs' : FS) :
  (m ≫= f) fs = (Ok b, fs') ->
  exists a fs1, m fs = (Ok a, fs1) /\ f a fs1 = (Ok b, fs').
Proof.
  unfold mbind, M_bind. destruct (m fs) as [[a|e] fs1]; [eauto|discriminate].
Qed.

Lemma lift_ok_inv {A} (r : result A) (fs : FS) (a : A) (fs' : FS) :
  lift r fs = (Ok a, fs') -> r = Ok a /\ fs' = fs.
Proof. unfold lift. intros [= -> ->]. split; reflexivity. Qed.

Lemma set_tree_id (fs : FS) : set_tree (fun t => t) fs = fs.
Proof. destruct fs; reflexivity. Qed.

(** ** Directories *)

Lemma blocked_set_tree (f : gmap (list string) node -> gmap (list string) node) (fs : FS)
    (p : list string) :
  blocked (set_tree f fs) p = blocked fs p.
Proof. reflexivity. Qed.

Lemma mkdir_node_ok_inv (p : list string) (fs : FS) (u : unit) (fs' : FS) :
  mkdir_node p fs = (Ok u, fs') ->
  fs' = set_tree (mkdir_one p) fs /\ tree fs' !! p = Some Dir /\ blocked fs p = false.
Proof.
  unfold mkdir_node, set_tree, mkdir_one.
  destruct (blocked fs p); [intros [=]|].
  destruct (tree fs !! p) as [[|c]|] eqn:E; intros [= <- <-] || intros [=].
  - split; [|split; [exact E|reflexivity]]. destruct fs; reflexivity.
  - split; [reflexivity|]. split; [|reflexivity]. simpl. apply lookup_insert_eq.
Qed.

Lemma mkdir_ok_inv (p : list string) (fs : FS) (u : unit) (fs' : FS) :
  mkdir p fs = (Ok u, fs') ->
  fs' = set_tree (mkdir_one p) fs /\ tree fs' !! p = Some Dir /\ blocked fs p = false.
Proof.
  unfold mkdir. intros H. apply (mkdir_node_ok_inv p fs u fs').
  destruct (is_dir fs (removelast p)); [exact H|discriminate].
Qed.


Lemma mkdir_one_keeps (p q : list string) (t : gmap (list string) node) (n : node) :
  t !! q = Some n -> mkdir_one p t !! q = Some n.
Proof.
  intros H. unfold mkdir_one. destruct (t !! p) eqn:E; [assumption|].
  rewrite lookup_insert_ne; [assumption|]. congruence.
Qed.

Lemma mkdir_one_other (p q : list string) (t : gmap (list string) node) :
  q <> p -> mkdir_one p t !! q = t !! q.
Proof.
  intros H. unfold mkdir_one. destruct (t !! p) eqn:E; [reflexivity|].
  now rewrite lookup_insert_ne by congruence.
Qed.

Lemma mkdirs_keeps (l : list (list string)) (q : list string)
    (t : gmap (list string) node) (n : node) :
  t !! q = Some n -> foldl (fun t q => mkdir_one q t) t l !! q = Some n.
Proof.
  revert t. induction l as [|p l IH]; intros t H; simpl; [assumption|].
  apply IH. now apply mkdir_one_keeps.
Qed.

Lemma mkdirs_other (l : list (list string)) (q : list string) (t : gmap (list string) node) :
  q ∉ l -> foldl (fun t q => mkdir_one q t) t l !! q = t !! q.
Proof.
  revert t. induction l as [|p l IH]; intros t H; simpl; [reflexivity|].
  apply not_elem_of_cons in H as [Hne H].
  rewrite IH by assumption. now apply mkdir_one_other.
Qed.

Lemma for_each_mkdir_ok_inv (l : list (list string)) (fs : FS) (us : list unit) (fs' : FS) :
  for_each mkdir_node l fs = (Ok us, fs') ->
  fs' = set_tree (fun t => foldl (fun t q => mkdir_one q t) t l) fs
  /\ forall q, q ∈ l -> tree fs' !! q = Some Dir.
Proof.
  revert fs us. induction l as [|p l IH]; intros fs us; simpl.
  - intros [= <- <-]. split; [symmetry; apply set_tree_id|]. intros q Hq. inversion Hq.
  - intros H. apply bind_ok_inv in H as (u & fs1 & Hm & H).
    apply bind_ok_inv in H as (us' & fs2 & Hrest & H).
    injection H as <- <-.
    apply mkdir_node_ok_inv in Hm as (-> & Hdir & _).
    apply IH in Hrest as [-> Hall].
    split; [reflexivity|].
    intros q Hq. apply elem_of_cons in Hq as [->|Hq]; [|now apply Hall].
    simpl. now apply mkdirs_keeps.
Qed.

Lemma ancestors_self (p : list string) : p ∈ ancestors p.
Proof.
  unfold ancestors. apply list_elem_of_In, in_map_iff.
  exists (length p). split; [apply firstn_all|]. apply in_seq. lia.
Qed.

Lemma ancestors_length (p q : list string) : q ∈ ancestors p -> length q <= length p.
Proof.
  unfold ancestors. intros H. apply list_elem_of_In, in_map_iff in H as (n & <- & _).
  rewrite length_take. lia.
Qed.

Lemma mkdir_parents_ok_inv (p : list string) (fs : FS) (u : unit) (fs' : FS) :
  mkdir_parents p fs = (Ok u, fs') ->
  fs' = set_tree (fun t => foldl (fun t q => mkdir_one q t) t (ancestors p)) fs
  /\ tree fs' !! p = Some Dir.
Proof.
  unfold mkdir_parents. intros H.
  apply bind_ok_inv in H as (us & fs1 & Hm & H).
  assert (fs' = fs1) as -> by (unfold mret, M_ret in H; congruence).
  apply for_each_mkdir_ok_inv in Hm as [-> Hall].
  split; [reflexivity|]. apply Hall, ancestors_self.
Qed.

(** ** Temporary file, bytes, rename *)

Lemma temp_write_replace_ok_inv (dir : list string) (name suffix : string) (c : content)
    (fs : FS) (u : unit) (fs' : FS) :
  (tmp_path ← named_temporary_file dir suffix;
   _ ← write_bytes tmp_path c;
   replace_file tmp_path (dir ++ [name])) fs = (Ok u, fs') ->
  fs' = set_tree <[dir ++ [name] := File c]> fs.
Proof.
  intros H.
  destruct (tree fs !! dir) as [[|c0]|] eqn:Hdir;
    try (unfold mbind, M_bind, named_temporary_file in H; rewrite Hdir in H; discriminate).
  destruct (decide (dir ∈ write_fails fs)) as [Hf|Hf].
  { unfold mbind, M_bind, named_temporary_file, write_bytes in H. rewrite Hdir in H.
    rewrite set_tree_write_fails, removelast_last in H.
    rewrite bool_decide_eq_true_2 in H by exact Hf. discriminate. }
  assert (tree fs !! (dir ++ [name]) <> Some Dir) as Ht.
  { intros Ht. 
    unfold mbind, M_bind, named_temporary_file, write_bytes, replace_file in H.
    rewrite Hdir in H. rewrite set_tree_write_fails, removelast_last in H.
    rewrite bool_decide_eq_false_2 in H by exact Hf.
    assert (dir ++ [temp_name fs suffix] <> dir ++ [name]) as Hne.
    { intros Heq. rewrite <- Heq, temp_name_fresh in Ht. discriminate. }
    unfold set_tree in H. cbn [tree write_fails] in H.
    rewrite ?lookup_insert_eq in H. cbn [tree write_fails] in H.
    rewrite ?lookup_insert_eq in H.
    rewrite !lookup_insert_ne, Ht in H by exact Hne. discriminate. }
  rewrite (temp_write_replace_ok dir name suffix c fs Hdir Hf Ht) in H.
  now injection H as <-.
Qed.

Lemma atomic_write_ok_inv (config : StorageConfig) (df : DataFrame) (dir : list string)
    (fs : FS) (u : unit) (fs' : FS) :
  HiveStorage._atomic_write config df (dir ++ ["data.parquet"]) fs = (Ok u, fs') ->
  fs' = set_tree <[dir ++ ["data.parquet"] := File (Parquet (HiveStorage.codec config) df)]> fs.
Proof.
  unfold HiveStorage._atomic_write. rewrite removelast_last.
  apply temp_write_replace_ok_inv.
Qed.

Lemma update_metadata_file_ok_inv (config : StorageConfig) (key : string)
    (doc : gmap string json) (fs : FS) (u : unit) (fs' : FS) :
  HiveStorage._update_metadata config key doc fs = (Ok u, fs') ->
  fs' = set_tree <[HiveStorage.metadata_file config key := File (JsonDoc doc)]> fs.
Proof.
  unfold HiveStorage._update_metadata, HiveStorage._write_metadata_file,
    HiveStorage.metadata_file.
  rewrite removelast_last.
  destruct (enable_locking config); apply temp_write_replace_ok_inv.
Qed.

(** ** The write loop *)

Lemma write_loop_ok_inv (config : StorageConfig) (kp pcs : list string)
    (gs : list (list value * DataFrame)) (es : list (list string * DataFrame))
    (fs : FS) (rels : list string) (fs' : FS) :
  Forall2 (fun g e => fst e = HiveStorage._build_partition_path kp pcs (fst g)
                      /\ drop_columns pcs (snd g) = Ok (snd e)) gs es ->
  for_each (fun g : list value * DataFrame =>
              let partition_path := HiveStorage._build_partition_path kp pcs (fst g) in
              _ ← mkdir_parents partition_path;
              partition_df ← lift (drop_columns pcs (snd g));
              let file_path := partition_path ++ ["data.parquet"] in
              _ ← HiveStorage._atomic_write config partition_df file_path;
              lift (HiveStorage.relative_to_base config partition_path)) gs fs
  = (Ok rels, fs') ->
  fs' = set_tree (fun t => foldl (put_partition (HiveStorage.codec config)) t es) fs.
Proof.
  intros HF. revert fs rels. induction HF as [|g e gs es [Hdir Hdrop] HF IH]; intros fs rels.
  - simpl. intros [= <- <-]. symmetry. apply set_tree_id.
  - cbn [for_each]. intros H.
    apply bind_ok_inv in H as (rel & fs1 & Hstep & H).
    apply bind_ok_inv in H as (rels' & fs2 & Hrest & H).
    assert (fs' = fs2) as -> by (unfold mret, M_ret in H; congruence).
    apply IH in Hrest as ->.
    cbv zeta in Hstep.
    apply bind_ok_inv in Hstep as (u & fsa & Hmk & Hstep).
    apply bind_ok_inv in Hstep as (pdf & fsb & Hd & Hstep).
    apply bind_ok_inv in Hstep as (u' & fsc & Hw & Hstep).
    apply lift_ok_inv in Hstep as [_ ->].
    apply lift_ok_inv in Hd as [Hd ->].
    apply mkdir_parents_ok_inv in Hmk as [-> _].
    apply atomic_write_ok_inv in Hw as ->.
    rewrite Hdrop in Hd. injection Hd as <-.
    rewrite <- Hdir. reflexivity.
Qed.

Lemma rows_with_key_elem (cols pcs : list string) (k : list value) (rs : list (list value))
    (r : list value) :
  r ∈ rows_with_key cols pcs k rs <-> r ∈ rs /\ row_key cols pcs r = k.
Proof.
  unfold rows_with_key. rewrite !list_elem_of_In, filter_In, bool_decide_eq_true.
  reflexivity.
Qed.

Lemma write_frame_ok_inv (config : StorageConfig) (now : datetime) (df : DataFrame)
    (key : string) (metadata : option (list (string * json)))
    (fs : FS) (out : list string) (fs' : FS) :
  well_formed df = true ->
  no_partition_named_column config df = true ->
  timestamps_valid df = true ->
  HiveStorage.write_frame config now (Eager df) key metadata fs = (Ok out, fs') ->
  "timestamp" ∈ columns df
  /\ out = HiveStorage.key_path config key
  /\ blocked fs (HiveStorage.key_path config key) = false
  /\ exists parts, fs' = set_tree (written_tree config now key df metadata parts) fs.
Proof.
  intros Hwf Hclash Hts H. unfold HiveStorage.write_frame in H.
  apply bind_ok_inv in H as (df0 & fs0 & Hc & H).
  simpl in Hc. injection Hc as <- <-.
  destruct (bool_decide ("timestamp" ∈ columns df)) eqn:Hcol; [|discriminate].
  apply bool_decide_eq_true in Hcol. cbn [negb] in H.
  apply bind_ok_inv in H as (df' & fs1 & Hadd & H).
  apply lift_ok_inv in Hadd as [Hadd ->].
  rewrite (add_partition_columns_spec config df Hclash Hts Hcol) in Hadd.
  injection Hadd as <-.
  apply bind_ok_inv in H as (u & fs2 & Hmk & H).
  apply mkdir_ok_inv in Hmk as (-> & _ & Hblocked).
  apply bind_ok_inv in H as (gs & fs3 & Hg & H).
  apply lift_ok_inv in Hg as [Hg ->].
  destruct (well_formed_spec df Hwf) as [_ Hlen].
  rewrite (group_by_spec config df Hclash (rows df) Hlen) in Hg.
  injection Hg as <-.
  apply bind_ok_inv in H as (parts & fs4 & Hloop & H).
  apply (write_loop_ok_inv config _ _ _ (partition_entries config key df)) in Hloop.
  2:{ unfold partition_entries. rewrite Forall2_fmap. apply Forall_Forall2_diag.
      apply Forall_forall. intros k _. simpl. split; [reflexivity|].
      apply (drop_columns_spec config df Hclash).
      intros r Hr. apply rows_with_key_elem in Hr as [Hr _]. now apply Hlen. }
  subst fs4.
  apply bind_ok_inv in H as (u' & fs5 & Hmeta & H).
  assert (out = HiveStorage.key_path config key /\ fs' = fs5) as [-> ->]
    by (unfold mret, M_ret in H; split; congruence).
  split; [assumption|]. split; [reflexivity|]. split; [assumption|]. exists parts.
  unfold written_tree.
  destruct (metadata_tracking config).
  - apply update_metadata_file_ok_inv in Hmeta as ->. reflexivity.
  - unfold mret, M_ret in Hmeta. injection Hmeta as Hm. subst fs5. reflexivity.
Qed.

(** ** Partition directory names *)

Lemma py_int_str_of_Z (z : Z) : py_int (str_of_Z z) = Ok z.
Proof.
  unfold py_int, str_of_Z.
  assert (Z.to_int z = Decimal.norm (Z.to_int z)) as Hn.
  { rewrite <- (DecimalZ.to_of (Z.to_int z)), DecimalZ.of_to. reflexivity. }
  rewrite NilZero.isi.
  - now rewrite DecimalZ.of_to.
  - rewrite Hn. destruct (Z.to_int z) as [d|d]; simpl.
    + intros [= H]. revert H. apply DecimalFacts.unorm_nonnil.
    + destruct (Decimal.nzhead d); discriminate.
  - rewrite Hn. destruct (Z.to_int z) as [d|d]; simpl.
    + discriminate.
    + destruct (Decimal.nzhead d); discriminate.
Qed.

Lemma str_of_Z_inj (a b : Z) : str_of_Z a = str_of_Z b -> a = b.
Proof.
  intros H. pose proof (py_int_str_of_Z a) as Ha. rewrite H, py_int_str_of_Z in Ha.
  congruence.
Qed.

Lemma string_app_inj_l (a x y : string) : a +:+ x = a +:+ y -> x = y.
Proof. induction a as [|c a IH]; simpl; [trivial|]. intros [= H]. now apply IH. Qed.

Lemma partition_column_names (config : StorageConfig) (c : string) :
  c ∈ HiveStorage._get_partition_columns config ->
  c ∈ ["year"; "month"; "day"; "hour"].
Proof.
  pose proof (partition_columns_cases config) as H. intros Hc.
  repeat (apply elem_of_cons in H as [Hp|H]); [..|inversion H];
    rewrite Hp in Hc;
    repeat (apply elem_of_cons in Hc as [->|Hc]); try (inversion Hc; fail);
    (apply (bool_decide_unpack _); vm_compute; exact I).
Qed.

Lemma in_zip_map_app {A B} (f : A -> B) (l : list A) (extra : list B) (x : A) (y : B) :
  In (x, y) (zip l (map f l ++ extra)) -> x ∈ l /\ y = f x.
Proof.
  induction l as [|a l IH]; simpl; [intros []|].
  intros [[= <- <-]|Hin]; [split; [apply list_elem_of_here|reflexivity]|].
  destruct (IH Hin) as [? ?]. split; [now apply list_elem_of_further|assumption].
Qed.

Lemma split_eq_partition_dir (config : StorageConfig) (c s : string) :
  c ∈ HiveStorage._get_partition_columns config ->
  split_eq (c +:+ "=" +:+ s) = Some (c, s).
Proof.
  intros H. apply partition_column_names in H.
  repeat (apply elem_of_cons in H as [->|H]); [reflexivity..|inversion H].
Qed.

Lemma build_partition_path_key (kp pcs : list string) (t : datetime) :
  HiveStorage._build_partition_path kp pcs (partition_key pcs t)
  = kp ++ map (fun c => c +:+ "=" +:+ str_of_Z (field_of c t)) pcs.
Proof.
  unfold HiveStorage._build_partition_path, partition_key. f_equal.
  induction pcs as [|c pcs IH]; simpl; [reflexivity|]. now rewrite IH.
Qed.

Lemma build_partition_path_inj (kp pcs : list string) (t1 t2 : datetime) :
  HiveStorage._build_partition_path kp pcs (partition_key pcs t1)
  = HiveStorage._build_partition_path kp pcs (partition_key pcs t2) ->
  partition_key pcs t1 = partition_key pcs t2.
Proof.
  rewrite !build_partition_path_key. intros H. apply app_inv_head in H.
  unfold partition_key. induction pcs as [|c pcs IH]; simpl in *; [reflexivity|].
  injection H as Hc H. f_equal; [|now apply IH].
  apply string_app_inj_l, string_app_inj_l, str_of_Z_inj in Hc. now rewrite Hc.
Qed.

Lemma build_partition_path_length (kp pcs : list string) (t : datetime) :
  length (HiveStorage._build_partition_path kp pcs (partition_key pcs t))
  = length kp + length pcs.
Proof. rewrite build_partition_path_key, length_app, length_map. reflexivity. Qed.

Lemma partition_dir_matches (config : StorageConfig) (t : datetime) :
  let pcs := HiveStorage._get_partition_columns config in
  HiveStorage.matches_pattern pcs
    (map (fun c => c +:+ "=" +:+ str_of_Z (field_of c t)) pcs ++ ["data.parquet"]) = true.
Proof.
  intros pcs. unfold HiveStorage.matches_pattern.
  rewrite last_snoc.
  rewrite !andb_true_iff, !bool_decide_eq_true. split; [split|reflexivity].
  - rewrite length_app, length_map. simpl. lia.
  - apply forallb_forall. intros [c part] Hin.
    apply in_zip_map_app in Hin as [Hc ->].
    simpl. unfold HiveStorage.matches_col.
    rewrite (split_eq_partition_dir config) by assumption.
    now apply bool_decide_eq_true.
Qed.

(** A path that matches the pattern starts with a [year=] directory. *)
Lemma matches_pattern_inv (config : StorageConfig) (rel : list string) :
  HiveStorage.matches_pattern (HiveStorage._get_partition_columns config) rel = true ->
  length rel = S (length (HiveStorage._get_partition_columns config))
  /\ exists r0 v rest, rel = r0 :: rest /\ split_eq r0 = Some ("year", v).
Proof.
  unfold HiveStorage.matches_pattern. rewrite !andb_true_iff, !bool_decide_eq_true.
  intros [[Hlen Hall] _]. split; [assumption|].
  pose proof (partition_columns_cases config) as H.
  destruct rel as [|r0 rest]; [discriminate|].
  assert (HiveStorage.matches_col "year" r0 = true) as Hm.
  { repeat (apply elem_of_cons in H as [Hp|H]); [..|inversion H];
      rewrite Hp in Hall; simpl in Hall; apply andb_true_iff in Hall as [Hm _]; exact Hm. }
  unfold HiveStorage.matches_col in Hm.
  destruct (split_eq r0) as [[c v]|] eqn:E; [|discriminate].
  apply bool_decide_eq_true in Hm as ->. exists r0, v, rest. split; [reflexivity|exact E].
Qed.

(** ** Lookups in the tree after a write *)

Lemma put_partition_other (codec : string) (t : gmap (list string) node)
    (e : list string * DataFrame) (p : list string) :
  p <> fst e ++ ["data.parquet"] -> p ∉ ancestors (fst e) ->
  put_partition codec t e !! p = t !! p.
Proof.
  intros H1 H2. unfold put_partition.
  rewrite lookup_insert_ne by congruence. now apply mkdirs_other.
Qed.

Lemma foldl_put_other (codec : string) (es : list (list string * DataFrame))
    (t : gmap (list string) node) (p : list string) :
  (forall e, e ∈ es -> p <> fst e ++ ["data.parquet"] /\ p ∉ ancestors (fst e)) ->
  foldl (put_partition codec) t es !! p = t !! p.
Proof.
  revert t. induction es as [|e es IH]; intros t H; simpl; [reflexivity|].
  rewrite IH by (intros e' He'; apply H; now apply list_elem_of_further).
  destruct (H e (list_elem_of_here _ _)) as [H1 H2]. now apply put_partition_other.
Qed.

Lemma foldl_put_is_Some (codec : string) (es : list (list string * DataFrame))
    (t : gmap (list string) node) (p : list string) :
  is_Some (t !! p) -> is_Some (foldl (put_partition codec) t es !! p).
Proof.
  revert t. induction es as [|e es IH]; intros t H; simpl; [assumption|].
  apply IH. unfold put_partition.
  destruct (decide (fst e ++ ["data.parquet"] = p)) as [<-|Hne].
  - rewrite lookup_insert_eq. eauto.
  - rewrite lookup_insert_ne by assumption. destruct H as [n Hn].
    exists n. now apply mkdirs_keeps.
Qed.

Lemma snoc_not_ancestor (d d' : list string) (name : string) :
  length d = length d' -> d ++ [name] ∉ ancestors d'.
Proof.
  intros Hlen Hin. apply ancestors_length in Hin. rewrite length_app in Hin. simpl in Hin. lia.
Qed.

Lemma foldl_put_target (codec : string) (es : list (list string * DataFrame))
    (t : gmap (list string) node) (dir : list string) (frame : DataFrame) (n : nat) :
  NoDup (map fst es) ->
  (forall e, e ∈ es -> length (fst e) = n) ->
  (dir, frame) ∈ es ->
  foldl (put_partition codec) t es !! (dir ++ ["data.parquet"])
  = Some (File (Parquet codec frame)).
Proof.
  revert t. induction es as [|e es IH]; intros t Hnd Hlen Hin; [inversion Hin|].
  simpl in Hnd. apply NoDup_cons in Hnd as [Hfresh Hnd].
  apply elem_of_cons in Hin as [<-|Hin]; simpl.
  - rewrite foldl_put_other.
    + unfold put_partition. simpl. apply lookup_insert_eq.
    + intros e' He'. split.
      * intros Heq. apply app_inj_tail in Heq as [Heq _]. apply Hfresh.
        simpl. rewrite Heq. apply list_elem_of_In, (in_map fst), list_elem_of_In, He'.
      * apply snoc_not_ancestor.
        pose proof (Hlen (dir, frame) (list_elem_of_here _ _)) as H1.
        pose proof (Hlen e' (list_elem_of_further _ _ _ He')) as H2.
        simpl in H1. congruence.
  - apply IH; [assumption| |assumption].
    intros e' He'. apply Hlen. now apply list_elem_of_further.
Qed.

Lemma key_path_cases (config : StorageConfig) (key : string) :
  HiveStorage.key_path config key = base_path config
  \/ exists n, HiveStorage.key_path config key = base_path config ++ [n].
Proof.
  unfold HiveStorage.key_path, path_join.
  destruct (bool_decide _); [now left|]. right. eauto.
Qed.

(** No partition file of any key is a metadata document. *)
Lemma pattern_path_not_metadata (config : StorageConfig) (key key' : string)
    (rel : list string) :
  HiveStorage.matches_pattern (HiveStorage._get_partition_columns config) rel = true ->
  HiveStorage.key_path config key ++ rel <> HiveStorage.metadata_file config key'.
Proof.
  intros Hm Heq. apply (matches_pattern_inv config) in Hm as (Hlen & r0 & v & rest & -> & Hs).
  unfold HiveStorage.metadata_file, HiveStorage.metadata_dir in Heq.
  rewrite <- app_assoc in Heq. simpl in Heq.
  destruct (key_path_cases config key) as [Hk|[n Hk]]; rewrite Hk in Heq.
  - apply app_inv_head in Heq. injection Heq as -> _. discriminate.
  - rewrite <- app_assoc in Heq. apply app_inv_head in Heq. simpl in Heq.
    injection Heq as _ _ Hrest. subst rest. simpl in Hlen.
    pose proof (partition_columns_cases config) as H.
    repeat (apply elem_of_cons in H as [Hp|H]); [..|inversion H];
      rewrite Hp in Hlen; discriminate.
Qed.

Lemma first_occurrences_NoDup {K} `{EqDecision K} (ks : list K) :
  NoDup (first_occurrences ks).
Proof.
  unfold first_occurrences.
  apply NoDup_ListNoDup, List.NoDup_rev, NoDup_ListNoDup, NoDup_remove_dups.
Qed.

Lemma first_occurrences_elem {K} `{EqDecision K} (ks : list K) (k : K) :
  k ∈ first_occurrences ks <-> k ∈ ks.
Proof.
  unfold first_occurrences.
  rewrite list_elem_of_In, <- in_rev, <- list_elem_of_In, elem_of_remove_dups.
  rewrite list_elem_of_In, <- in_rev, <- list_elem_of_In. reflexivity.
Qed.

Lemma partition_entries_spec (config : StorageConfig) (key : string) (df : DataFrame)
    (e : list string * DataFrame) :
  e ∈ partition_entries config key df <->
  exists r, r ∈ rows df
    /\ fst e = HiveStorage._build_partition_path (HiveStorage.key_path config key)
                 (HiveStorage._get_partition_columns config)
                 (partition_key (HiveStorage._get_partition_columns config)
                    (time_of (columns df) r))
    /\ snd e = mk_df (columns df)
                 (rows_with_key (columns df) (HiveStorage._get_partition_columns config)
                    (row_key (columns df) (HiveStorage._get_partition_columns config) r)
                    (rows df)).
Proof.
  unfold partition_entries. rewrite list_elem_of_In, in_map_iff. split.
  - intros (k & <- & Hk).
    rewrite <- list_elem_of_In, first_occurrences_elem, list_elem_of_In, in_map_iff in Hk.
    destruct Hk as (r & <- & Hr).
    exists r. split; [now apply list_elem_of_In|]. split; reflexivity.
  - intros (r & Hr & H1 & H2).
    exists (row_key (columns df) (HiveStorage._get_partition_columns config) r).
    split; [destruct e; simpl in *; now subst|].
    rewrite <- list_elem_of_In, first_occurrences_elem, list_elem_of_In.
    apply in_map. now apply list_elem_of_In.
Qed.

Lemma partition_entries_depth (config : StorageConfig) (key : string) (df : DataFrame)
    (e : list string * DataFrame) :
  e ∈ partition_entries config key df ->
  length (fst e) = length (HiveStorage.key_path config key)
                   + length (HiveStorage._get_partition_columns config).
Proof.
  intros H. apply partition_entries_spec in H as (r & _ & -> & _).
  apply build_partition_path_length.
Qed.

Lemma partition_entries_NoDup (config : StorageConfig) (key : string) (df : DataFrame) :
  NoDup (map fst (partition_entries config key df)).
Proof.
  unfold partition_entries. rewrite map_map. simpl.
  apply NoDup_fmap_2_strong; [|apply first_occurrences_NoDup].
  intros k1 k2 H1 H2 Heq.
  rewrite first_occurrences_elem, list_elem_of_In, in_map_iff in H1.
  rewrite first_occurrences_elem, list_elem_of_In, in_map_iff in H2.
  destruct H1 as (r1 & <- & _). destruct H2 as (r2 & <- & _).
  now apply build_partition_path_inj in Heq.
Qed.

Lemma partition_entry_path (config : StorageConfig) (key : string) (df : DataFrame)
    (e : list string * DataFrame) :
  e ∈ partition_entries config key df ->
  exists rel, fst e ++ ["data.parquet"] = HiveStorage.key_path config key ++ rel
    /\ HiveStorage.matches_pattern (HiveStorage._get_partition_columns config) rel = true.
Proof.
  intros H. apply partition_entries_spec in H as (r & _ & -> & _).
  rewrite build_partition_path_key, <- app_assoc. eexists. split; [reflexivity|].
  apply partition_dir_matches.
Qed.

Lemma written_tree_target (config : StorageConfig) (now : datetime) (key : string)
    (df : DataFrame) (metadata : option (list (string * json))) (parts : list string)
    (t : gmap (list string) node) (e : list string * DataFrame) :
  e ∈ partition_entries config key df ->
  written_tree config now key df metadata parts t !! (fst e ++ ["data.parquet"])
  = Some (File (Parquet (HiveStorage.codec config) (snd e))).
Proof.
  intros He. unfold written_tree.
  assert (foldl (put_partition (HiveStorage.codec config))
            (mkdir_one (HiveStorage.key_path config key) t)
            (partition_entries config key df) !! (fst e ++ ["data.parquet"])
          = Some (File (Parquet (HiveStorage.codec config) (snd e)))) as Hl.
  { apply (foldl_put_target _ _ _ _ _
             (length (HiveStorage.key_path config key)
              + length (HiveStorage._get_partition_columns config))).
    - apply partition_entries_NoDup.
    - intros e' He'. now apply (partition_entries_depth config key df).
    - now destruct e. }
  destruct (metadata_tracking config); [|exact Hl].
  rewrite lookup_insert_ne; [exact Hl|].
  destruct (partition_entry_path config key df e He) as (rel & -> & Hm).
  intros Heq. symmetry in Heq. revert Heq. now apply pattern_path_not_metadata.
Qed.

Lemma written_tree_other (config : StorageConfig) (now : datetime) (key : string)
    (df : DataFrame) (metadata : option (list (string * json))) (parts : list string)
    (t : gmap (list string) node) (rel : list string) :
  HiveStorage.matches_pattern (HiveStorage._get_partition_columns config) rel = true ->
  (forall e, e ∈ partition_entries config key df ->
             HiveStorage.key_path config key ++ rel <> fst e ++ ["data.parquet"]) ->
  written_tree config now key df metadata parts t !! (HiveStorage.key_path config key ++ rel)
  = t !! (HiveStorage.key_path config key ++ rel).
Proof.
  intros Hm Hne. unfold written_tree.
  destruct (matches_pattern_inv config rel Hm) as [Hlen _].
  assert (foldl (put_partition (HiveStorage.codec config))
            (mkdir_one (HiveStorage.key_path config key) t)
            (partition_entries config key df) !! (HiveStorage.key_path config key ++ rel)
          = t !! (HiveStorage.key_path config key ++ rel)) as Hl.
  { rewrite foldl_put_other.
    - apply mkdir_one_other. intros Heq.
      apply (f_equal length) in Heq. rewrite length_app in Heq. lia.
    - intros e He. split; [now apply Hne|].
      intros Hin. apply ancestors_length in Hin.
      rewrite (partition_entries_depth config key df e He), length_app in Hin. lia. }
  destruct (metadata_tracking config); [|exact Hl].
  rewrite lookup_insert_ne; [exact Hl|].
  intros Heq. symmetry in Heq. revert Heq. now apply pattern_path_not_metadata.
Qed.

Lemma written_tree_is_Some (config : StorageConfig) (now : datetime) (key : string)
    (df : DataFrame) (metadata : option (list (string * json))) (parts : list string)
    (t : gmap (list string) node) (p : list string) :
  is_Some (t !! p) -> is_Some (written_tree config now key df metadata parts t !! p).
Proof.
  intros H. unfold written_tree.
  assert (is_Some (foldl (put_partition (HiveStorage.codec config))
            (mkdir_one (HiveStorage.key_path config key) t)
            (partition_entries config key df) !! p)) as Hl.
  { apply foldl_put_is_Some. destruct H as [n Hn]. exists n. now apply mkdir_one_keeps. }
  destruct (metadata_tracking config); [|exact Hl].
  destruct (decide (HiveStorage.metadata_file config key = p)) as [<-|Hne].
  - rewrite lookup_insert_eq. eauto.
  - now rewrite lookup_insert_ne.
Qed.

Lemma written_tree_key_path (config : StorageConfig) (now : datetime) (key : string)
    (df : DataFrame) (metadata : option (list (string * json))) (parts : list string)
    (t : gmap (list string) node) :
  is_Some (written_tree config now key df metadata parts t !! HiveStorage.key_path config key).
Proof.
  unfold written_tree.
  assert (is_Some (foldl (put_partition (HiveStorage.codec config))
            (mkdir_one (HiveStorage.key_path config key) t)
            (partition_entries config key df) !! HiveStorage.key_path config key)) as Hl.
  { apply foldl_put_is_Some. unfold mkdir_one.
    destruct (t !! HiveStorage.key_path config key) eqn:E; [rewrite E; eauto|].
    rewrite lookup_insert_eq. eauto. }
  destruct (metadata_tracking config); [|exact Hl].
  destruct (decide (HiveStorage.metadata_file config key = HiveStorage.key_path config key))
    as [Heq|Hne].
  - rewrite Heq, lookup_insert_eq. eauto.
  - now rewrite lookup_insert_ne.
Qed.

(** ** The glob *)

Lemma elem_of_glob (fs : FS) (kp pcs p : list string) :
  p ∈ HiveStorage.glob fs kp pcs <->
  is_Some (tree fs !! p)
  /\ exists rel, p = kp ++ rel /\ HiveStorage.matches_pattern pcs rel = true.
Proof.
  unfold HiveStorage.glob.
  rewrite list_elem_of_In, filter_In, andb_true_iff, bool_decide_eq_true.
  rewrite in_map_iff. split.
  - intros [(qn & <- & Hin) [Hp Hm]]. destruct qn as [q n]. simpl in *.
    destruct Hp as [rel ->].
    rewrite drop_app_length in Hm. split; [|eauto].
    apply list_elem_of_In, elem_of_map_to_list in Hin. eauto.
  - intros [[n Hn] (rel & -> & Hm)]. split.
    + exists (kp ++ rel, n). split; [reflexivity|].
      now apply list_elem_of_In, elem_of_map_to_list.
    + split; [now exists rel|]. now rewrite drop_app_length.
Qed.

Lemma glob_NoDup (fs : FS) (kp pcs : list string) : NoDup (HiveStorage.glob fs kp pcs).
Proof.
  unfold HiveStorage.glob. apply NoDup_ListNoDup, List.NoDup_filter, NoDup_ListNoDup.
  apply NoDup_fst_map_to_list.
Qed.

Lemma stored_files_after_write (config : StorageConfig) (now : datetime) (key : string)
    (df : DataFrame) (metadata : option (list (string * json))) (parts : list string)
    (fs : FS) (p : list string) :
  p ∈ stored_files config (set_tree (written_tree config now key df metadata parts) fs) key
  <-> p ∈ map (fun e => fst e ++ ["data.parquet"]) (partition_entries config key df)
      \/ p ∈ stored_files config fs key.
Proof.
  unfold stored_files. rewrite !elem_of_glob, set_tree_tree. split.
  - intros [Hs (rel & -> & Hm)].
    destruct (decide (HiveStorage.key_path config key ++ rel
                      ∈ map (fun e => fst e ++ ["data.parquet"])
                          (partition_entries config key df))) as [Hin|Hnot];
      [now left|right].
    rewrite written_tree_other in Hs; [eauto|assumption|].
    intros e He Heq. apply Hnot. rewrite Heq.
    apply list_elem_of_In, (in_map (fun e => fst e ++ ["data.parquet"])), list_elem_of_In, He.
  - intros [Hin|[Hs Hrel]].
    + apply list_elem_of_In, in_map_iff in Hin as (e & <- & He).
      apply list_elem_of_In in He. rewrite written_tree_target by assumption.
      split; [eauto|]. now apply (partition_entry_path config key df).
    + split; [|assumption]. now apply written_tree_is_Some.
Qed.

(** ** Reading everything back *)

Lemma scan_parquet_frame_at (fs : FS) (p : list string) (c : string) (d : DataFrame) :
  tree fs !! p = Some (File (Parquet c d)) ->
  scan_parquet fs p = Ok (frame_at fs p) /\ frame_at fs p = d.
Proof. intros H. unfold scan_parquet, frame_at. rewrite H. split; reflexivity. Qed.

Lemma concat_lazy_same_columns (cols : list string) (frames : list DataFrame) :
  frames <> [] ->
  (forall f, f ∈ frames -> columns f = cols) ->
  concat_lazy frames = Ok (mk_df cols (concat (map rows frames))).
Proof.
  intros Hne Hall. destruct frames as [|f frames]; [congruence|].
  unfold concat_lazy.
  replace (forallb _ (f :: frames)) with true.
  - now rewrite (Hall f) by apply list_elem_of_here.
  - symmetry. apply forallb_forall. intros g Hg. apply bool_decide_eq_true.
    rewrite (Hall f) by apply list_elem_of_here. apply Hall. now apply list_elem_of_In.
Qed.

Lemma read_all (config : StorageConfig) (fs : FS) (key : string) (cols : list string) :
  HiveStorage.exists_ config fs key = Ok true ->
  (forall p, p ∈ stored_files config fs key ->
     exists c d, tree fs !! p = Some (File (Parquet c d)) /\ columns d = cols) ->
  exists lf out,
    HiveStorage.read config fs key None None None = Ok lf
    /\ collect fs lf = Ok out
    /\ rows out = concat (map (fun p => rows (frame_at fs p)) (stored_files config fs key))
    /\ (stored_files config fs key <> [] -> columns out = cols).
Proof.
  intros Hex Hfiles. unfold HiveStorage.read. unfold HiveStorage.exists_ in Hex.
  rewrite Hex. cbn [negb HiveStorage._find_partition_paths mbind result_bind].
  fold (stored_files config fs key).
  assert (mapM_res (collect fs) (map LScan (stored_files config fs key))
          = Ok (map (frame_at fs) (stored_files config fs key))) as Hscan.
  { revert Hfiles. generalize (stored_files config fs key). intros l Hl.
    induction l as [|p l IH]; simpl; [reflexivity|].
    destruct (Hl p (list_elem_of_here _ _)) as (c & d & Hp & _).
    rewrite (proj1 (scan_parquet_frame_at fs p c d Hp)). simpl.
    rewrite IH; [reflexivity|]. intros q Hq. apply Hl. now apply list_elem_of_further. }
  destruct (stored_files config fs key) as [|p1 [|p2 rest]] eqn:E.
  - exists (LFrame empty_frame), empty_frame. repeat split; congruence.
  - destruct (Hfiles p1 (list_elem_of_here _ _)) as (c & d & Hp & Hc).
    destruct (scan_parquet_frame_at fs p1 c d Hp) as [Hs Hf].
    exists (LScan p1), (frame_at fs p1). simpl.
    split; [reflexivity|]. split; [exact Hs|]. split; [now rewrite app_nil_r|].
    intros _. now rewrite Hf.
  - eexists (LConcat _), _. split; [reflexivity|].
    change (map (fun path : list string => LScan path) (p1 :: p2 :: rest))
      with (map LScan (p1 :: p2 :: rest)).
    cbn [collect]. rewrite Hscan. cbn [mbind result_bind].
    rewrite (concat_lazy_same_columns cols).
    + split; [reflexivity|]. simpl. split; [|reflexivity].
      now rewrite !map_map.
    + discriminate.
    + intros f Hf. apply list_elem_of_In, in_map_iff in Hf as (p & <- & Hp).
      apply list_elem_of_In in Hp.
      destruct (Hfiles p Hp) as (c & d & Hl & Hc).
      now rewrite (proj2 (scan_parquet_frame_at fs p c d Hl)).
Qed.

(** ** Grouping keeps every row once *)

Lemma concat_filter_insert {A K} `{EqDecision K} (key : A -> K) (x : A)
    (F : K -> list A) (ks : list K) :
  NoDup ks -> key x ∈ ks ->
  concat (map (fun k => if bool_decide (key x = k) then x :: F k else F k) ks)
  ≡ₚ x :: concat (map F ks).
Proof.
  induction ks as [|k ks IH]; intros Hnd Hin; [inversion Hin|].
  apply NoDup_cons in Hnd as [Hfresh Hnd]. simpl.
  destruct (bool_decide (key x = k)) eqn:E.
  - apply bool_decide_eq_true in E. simpl. apply Permutation_skip.
    apply Permutation_app_head.
    assert (forall l, key x ∉ l ->
              map (fun k0 => if bool_decide (key x = k0) then x :: F k0 else F k0) l
              = map F l) as Hsame.
    { intros l Hl. apply map_ext_in. intros k0 Hk0.
      rewrite bool_decide_eq_false_2; [reflexivity|].
      intros Hk. apply Hl. rewrite Hk. now apply list_elem_of_In. }
    rewrite Hsame; [reflexivity|]. intros Hin'. apply Hfresh. now rewrite <- E.
  - apply bool_decide_eq_false in E.
    apply elem_of_cons in Hin as [Hin|Hin]; [congruence|].
    rewrite (IH Hnd Hin). symmetry. apply Permutation_middle.
Qed.

Lemma concat_groups {A K} `{EqDecision K} (key : A -> K) (l : list A) (ks : list K) :
  NoDup ks -> (forall x, x ∈ l -> key x ∈ ks) ->
  concat (map (fun k => List.filter (fun x => bool_decide (key x = k)) l) ks) ≡ₚ l.
Proof.
  intros Hnd. induction l as [|x l IH]; intros Hin.
  - simpl. clear. induction ks as [|k ks IHk]; simpl; [reflexivity|assumption].
  - simpl.
    rewrite (concat_filter_insert key x
               (fun k => List.filter (fun y => bool_decide (key y = k)) l) ks Hnd)
      by (apply Hin, list_elem_of_here).
    apply Permutation_skip, IH. intros y Hy. apply Hin. now apply list_elem_of_further.
Qed.

Lemma partition_entries_rows (config : StorageConfig) (key : string) (df : DataFrame) :
  concat (map (fun e => rows (snd e)) (partition_entries config key df)) ≡ₚ rows df.
Proof.
  unfold partition_entries. rewrite map_map. simpl.
  apply (concat_groups (row_key (columns df) (HiveStorage._get_partition_columns config))).
  - apply first_occurrences_NoDup.
  - intros r Hr. apply first_occurrences_elem.
    apply list_elem_of_In, in_map. now apply list_elem_of_In.
Qed.

Lemma partition_files_entries (config : StorageConfig) (key : string) (df : DataFrame)
    (p : list string) :
  p ∈ partition_files config key df ->
  p ∈ map (fun e => fst e ++ ["data.parquet"]) (partition_entries config key df).
Proof.
  unfold partition_files. rewrite list_elem_of_omap. intros (r & Hr & Hp).
  destruct (row_time (columns df) r) as [t|] eqn:Ht; [|discriminate].
  simpl in Hp. injection Hp as <-.
  apply list_elem_of_In, in_map_iff.
  eexists (_, _). split; [|apply list_elem_of_In, partition_entries_spec; exists r;
                            split; [exact Hr|split; reflexivity]].
  simpl. unfold partition_file, time_of. now rewrite Ht.
Qed.

Lemma entries_targets_NoDup (config : StorageConfig) (key : string) (df : DataFrame) :
  NoDup (map (fun e => fst e ++ ["data.parquet"]) (partition_entries config key df)).
Proof.
  pose proof (partition_entries_NoDup config key df) as H.
  rewrite <- (map_map fst (fun d => d ++ ["data.parquet"])).
  apply NoDup_fmap_2; [|exact H].
  intros a b Hab. now apply app_inj_tail in Hab as [? _].
Qed.

(** The partition files after a write that leaves no older partition
    behind: exactly those of the frame, each holding its rows. *)
Lemma files_after_write (config : StorageConfig) (now : datetime) (key : string)
    (df : DataFrame) (metadata : option (list (string * json))) (parts : list string)
    (fs : FS) :
  no_stale_partitions config fs key df = true ->
  let fs' := set_tree (written_tree config now key df metadata parts) fs in
  stored_files config fs' key
    ≡ₚ map (fun e => fst e ++ ["data.parquet"]) (partition_entries config key df)
  /\ (forall e, e ∈ partition_entries config key df ->
        tree fs' !! (fst e ++ ["data.parquet"])
        = Some (File (Parquet (HiveStorage.codec config) (snd e)))).
Proof.
  intros Hstale fs'. split.
  - apply NoDup_Permutation; [apply glob_NoDup|apply entries_targets_NoDup|].
    intros p. subst fs'. rewrite stored_files_after_write. split; [|now left].
    intros [H|H]; [assumption|]. apply partition_files_entries.
    unfold no_stale_partitions in Hstale. rewrite forallb_forall in Hstale.
    apply list_elem_of_In, Hstale in H. now apply bool_decide_eq_true in H.
  - intros e He. subst fs'. rewrite set_tree_tree. now apply written_tree_target.
Qed.

Lemma write_ok_inv (config : StorageConfig) (now : datetime) (df : DataFrame)
    (key : string) (metadata : option (list (string * json)))
    (fs : FS) (out : write_output) (fs' : FS) :
  well_formed df = true ->
  no_partition_named_column config df = true ->
  timestamps_valid df = true ->
  HiveStorage.write config now (Frame (Eager df)) (Some key) metadata fs = (Ok out, fs') ->
  "timestamp" ∈ columns df
  /\ out = WrotePath (HiveStorage.key_path config key)
  /\ blocked fs (HiveStorage.key_path config key) = false
  /\ exists parts, fs' = set_tree (written_tree config now key df metadata parts) fs.
Proof.
  intros Hwf Hclash Hts H. unfold HiveStorage.write in H.
  apply bind_ok_inv in H as (p & fs1 & Hw & H).
  apply (write_frame_ok_inv config now df key metadata fs p fs1 Hwf Hclash Hts) in Hw
    as (Hcol & -> & Hblocked & parts & ->).
  unfold mret, M_ret in H. injection H as <- <-.
  split; [assumption|]. split; [reflexivity|]. split; [assumption|]. now exists parts.
Qed.

(** What [read(key)] collects from a store whose partition files are those
    of [df]: the rows of [df], partition by partition. *)
Lemma read_back (config : StorageConfig) (fs' : FS) (key : string) (df : DataFrame) :
  HiveStorage.exists_ config fs' key = Ok true ->
  stored_files config fs' key
    ≡ₚ map (fun e => fst e ++ ["data.parquet"]) (partition_entries config key df) ->
  (forall e, e ∈ partition_entries config key df ->
     tree fs' !! (fst e ++ ["data.parquet"])
     = Some (File (Parquet (HiveStorage.codec config) (snd e)))) ->
  exists lf res,
    HiveStorage.read config fs' key None None None = Ok lf
    /\ collect fs' lf = Ok res
    /\ rows res ≡ₚ rows df
    /\ (rows df <> [] -> columns res = columns df).
Proof.
  intros Hex Hperm Hfiles.
  assert (forall p, p ∈ stored_files config fs' key ->
            exists e, e ∈ partition_entries config key df /\ p = fst e ++ ["data.parquet"])
    as Hcover.
  { intros p Hp. rewrite Hperm in Hp.
    apply list_elem_of_In, in_map_iff in Hp as (e & <- & He).
    exists e. split; [now apply list_elem_of_In|reflexivity]. }
  destruct (read_all config fs' key (columns df) Hex) as (lf & res & Hr & Hc & Hrows & Hcols).
  { intros p Hp. destruct (Hcover p Hp) as (e & He & ->).
    exists (HiveStorage.codec config), (snd e). split; [now apply Hfiles|].
    apply partition_entries_spec in He as (r & _ & _ & ->). reflexivity. }
  exists lf, res. split; [assumption|]. split; [assumption|]. split.
  - rewrite Hrows, <- flat_map_concat_map.
    rewrite (Permutation_flat_map _ Hperm), flat_map_concat_map, map_map.
    rewrite <- (partition_entries_rows config key df).
    replace (map (fun e => rows (frame_at fs' (fst e ++ ["data.parquet"])))
               (partition_entries config key df))
      with (map (fun e => rows (snd e)) (partition_entries config key df)); [reflexivity|].
    apply map_ext_in. intros e He. apply list_elem_of_In in He.
    unfold frame_at. now rewrite (Hfiles e He).
  - intros Hne. apply Hcols. intros Hnil. rewrite Hnil in Hperm.
    apply Permutation_nil in Hperm. apply map_eq_nil in Hperm.
    pose proof (partition_entries_rows config key df) as Hp.
    rewrite Hperm in Hp. simpl in Hp. apply Permutation_nil in Hp. contradiction.
Qed.

(** ** Write, then read *)

(** C2, as stated, fails in three ways.  A write adds or replaces
    partitions and leaves the others of the key in place: after the January
    rows, writing the February frame and reading the key back gives three
    rows, not one.  A column named like a partition column is overwritten
    with the value derived from the timestamp and dropped before the file
    is written: it does not come back.  And a frame without rows writes no
    file, so that the key reads back as the frame without columns. *)
Lemma write_then_read_roundtrip_limits :
  (exists out fs' lf res,
     HiveStorage.write demo_config demo_now (Frame (Eager february_row))
       (Some "yahoo/AAPL") None january_store = (Ok out, fs')
     /\ HiveStorage.read demo_config fs' "yahoo/AAPL" None None None = Ok lf
     /\ collect fs' lf = Ok res
     /\ length (rows res) = 3
     /\ ~ rows res ≡ₚ rows february_row)
  /\ (exists out fs' lf res,
        HiveStorage.write demo_config demo_now (Frame (Eager frame_with_year))
          (Some "yahoo/AAPL") None fresh_store = (Ok out, fs')
        /\ HiveStorage.read demo_config fs' "yahoo/AAPL" None None None = Ok lf
        /\ collect fs' lf = Ok res
        /\ columns res = ["timestamp"; "close"]
        /\ ~ rows res ≡ₚ rows frame_with_year)
  /\ (exists out fs' lf res,
        HiveStorage.write demo_config demo_now (Frame (Eager frame_without_rows))
          (Some "yahoo/AAPL") None fresh_store = (Ok out, fs')
        /\ HiveStorage.read demo_config fs' "yahoo/AAPL" None None None = Ok lf
        /\ collect fs' lf = Ok res
        /\ columns res = []
        /\ columns frame_without_rows = ["timestamp"; "close"]).
Proof.
  split; [|split].
  - eexists _, _, _, _.
    split; [vm_compute; reflexivity|].
    split; [vm_compute; reflexivity|].
    split; [vm_compute; reflexivity|].
    split; [vm_compute; reflexivity|].
    intros H. apply Permutation_length in H. vm_compute in H. discriminate.
  - eexists _, _, _, _.
    split; [vm_compute; reflexivity|].
    split; [vm_compute; reflexivity|].
    split; [vm_compute; reflexivity|].
    split; [vm_compute; reflexivity|].
    intros H. apply Permutation_singleton_r in H. vm_compute in H. discriminate.
  - eexists _, _, _, _.
    split; [vm_compute; reflexivity|].
    split; [vm_compute; reflexivity|].
    split; [vm_compute; reflexivity|].
    split; vm_compute; reflexivity.
Qed.

(** C2, amended. Take a frame with distinct column names and one cell per
    column in every row, a datetime in every [timestamp] cell and no column
    named like a partition column, and a key that holds no partition file
    beyond those the frame has rows for.  If [write] of the frame under the
    key succeeds, then [read] of the key and its collection succeed, and
    give the rows of the frame in some order, under the columns of the
    frame in their order when the frame has a row. *)
Theorem write_then_read_roundtrip (config : StorageConfig) (now : datetime) (fs : FS)
    (key : string) (df : DataFrame) (metadata : option (list (string * json)))
    (out : write_output) (fs' : FS) :
  well_formed df = true ->
  timestamps_valid df = true ->
  no_partition_named_column config df = true ->
  no_stale_partitions config fs key df = true ->
  HiveStorage.write config now (Frame (Eager df)) (Some key) metadata fs = (Ok out, fs') ->
  exists lf res,
    HiveStorage.read config fs' key None None None = Ok lf
    /\ collect fs' lf = Ok res
    /\ rows res ≡ₚ rows df
    /\ (rows df <> [] -> columns res = columns df).
Proof.
  intros Hwf Hts Hclash Hstale Hw.
  apply (write_ok_inv config now df key metadata fs out fs' Hwf Hclash Hts) in Hw
    as (_ & _ & Hblocked & parts & ->).
  destruct (files_after_write config now key df metadata parts fs Hstale) as [Hperm Hfiles].
  apply (read_back config _ key df); [|assumption|assumption].
  unfold HiveStorage.exists_, exists_path. rewrite blocked_set_tree, Hblocked.
  f_equal. unfold path_exists. apply bool_decide_eq_true.
  rewrite set_tree_tree. apply written_tree_key_path.
Qed.

Lemma write_then_read_roundtrip_witness :
  exists lf res,
    HiveStorage.read demo_config demo_store "yahoo/AAPL" None None None = Ok lf
    /\ collect demo_store lf = Ok res
    /\ rows res ≡ₚ rows demo_frame
    /\ (rows demo_frame <> [] -> columns res = columns demo_frame).
Proof.
  apply (write_then_read_roundtrip demo_config demo_now fresh_store "yahoo/AAPL"
           demo_frame None (WrotePath ["data"; "yahoo_AAPL"]));
    vm_compute; reflexivity.
Defined.

(** ** Unknown keys and empty ranges *)

(** C7. [read] on a key whose directory does not exist raises [KeyError];
    on an existing key of which no partition survives the pruning it
    returns the empty lazy frame, which collects to the empty table; and
    [read_data] on a key that does not exist returns the empty table. *)
Theorem read_unknown_key_raises (config : StorageConfig) (fs : FS) (key : string)
    (start_date end_date : option datetime) (cols : option (list string)) :
  (HiveStorage.exists_ config fs key = Ok false ->
     HiveStorage.read config fs key start_date end_date cols = Raise KeyError)
  /\ (HiveStorage.exists_ config fs key = Ok true ->
      HiveStorage._find_partition_paths fs (HiveStorage.key_path config key)
        (HiveStorage._get_partition_columns config) start_date end_date = Ok [] ->
      HiveStorage.read config fs key start_date end_date cols = Ok (LFrame empty_frame)
      /\ collect fs (LFrame empty_frame) = Ok empty_frame)
  /\ (forall symbol provider,
        HiveStorage.exists_ config fs (provider +:+ "/" +:+ symbol) = Ok false ->
        HiveStorage.read_data config fs symbol provider start_date end_date
        = Ok empty_frame).
Proof.
  unfold HiveStorage.read, HiveStorage.read_data, HiveStorage.exists_.
  split; [|split].
  - intros ->. reflexivity.
  - intros -> ->. split; reflexivity.
  - intros symbol provider ->. reflexivity.
Qed.

Lemma read_unknown_key_raises_witness :
  HiveStorage.read demo_config demo_store "yahoo/MSFT" None None None = Raise KeyError
  /\ HiveStorage.read demo_config demo_store "yahoo/AAPL"
       (Some (at_hour 2030 1 1 0)) (Some (at_hour 2030 2 1 0)) None
     = Ok (LFrame empty_frame)
  /\ HiveStorage.read_data demo_config demo_store "MSFT" "yahoo" None None = Ok empty_frame.
Proof.
  split; [|split].
  - apply (read_unknown_key_raises demo_config demo_store "yahoo/MSFT" None None None).
    vm_compute. reflexivity.
  - apply (read_unknown_key_raises demo_config demo_store "yahoo/AAPL"
             (Some (at_hour 2030 1 1 0)) (Some (at_hour 2030 2 1 0)) None);
      vm_compute; reflexivity.
  - apply (read_unknown_key_raises demo_config demo_store "yahoo/MSFT" None None None).
    vm_compute. reflexivity.
Defined.

(** ** The latest timestamp *)

(** The existence test of [get_latest_timestamp] stands before its [try]:
    on a store where the key directory cannot be examined the [OSError] of
    [Path.exists] leaves the function. *)
Lemma get_latest_timestamp_guard_raises :
  HiveStorage.exists_ demo_config demo_store_unreadable "yahoo/AAPL" = Raise OSError
  /\ HiveStorage.get_latest_timestamp demo_config demo_store_unreadable "AAPL" "yahoo"
     = Raise OSError.
Proof. split; vm_compute; reflexivity. Qed.

(** C10, amended. An exception of the existence test leaves
    [get_latest_timestamp] as it is.  Whenever that test returns, the
    function returns too: [None] when the key does not exist, and also
    [None] whenever building the read or collecting it raises, whatever the
    exception. *)
Theorem get_latest_timestamp_catches_read_errors (config : StorageConfig) (fs : FS)
    (symbol provider : string) :
  let key := provider +:+ "/" +:+ symbol in
  (forall e, HiveStorage.exists_ config fs key = Raise e ->
     HiveStorage.get_latest_timestamp config fs symbol provider = Raise e)
  /\ (forall found, HiveStorage.exists_ config fs key = Ok found ->
      (exists r, HiveStorage.get_latest_timestamp config fs symbol provider = Ok r)
      /\ (found = false ->
          HiveStorage.get_latest_timestamp config fs symbol provider = Ok None)
      /\ (forall e, HiveStorage.read config fs key None None None = Raise e ->
          HiveStorage.get_latest_timestamp config fs symbol provider = Ok None)
      /\ (forall lf e, HiveStorage.read config fs key None None None = Ok lf ->
          collect fs (LSelect ["timestamp"] lf) = Raise e ->
          HiveStorage.get_latest_timestamp config fs symbol provider = Ok None)).
Proof.
  intros key. unfold HiveStorage.get_latest_timestamp. fold key. split.
  - intros e ->. reflexivity.
  - intros found ->. cbn [mbind result_bind]. destruct found; cbn [negb].
    + split; [|split; [|split]].
      * match goal with |- context [try_except ?b _] => destruct b; simpl; eauto end.
      * discriminate.
      * intros e ->. reflexivity.
      * intros lf e -> Hc. unfold mbind, result_bind. rewrite Hc. reflexivity.
    + repeat split; eauto.
Qed.

Lemma get_latest_timestamp_catches_read_errors_witness :
  HiveStorage.get_latest_timestamp demo_config demo_store_unreadable "AAPL" "yahoo"
  = Raise OSError
  /\ HiveStorage.get_latest_timestamp demo_config fresh_store "AAPL" "yahoo" = Ok None
  /\ HiveStorage.get_latest_timestamp demo_config demo_store_damaged "AAPL" "yahoo" = Ok None.
Proof.
  split; [|split].
  - apply (get_latest_timestamp_catches_read_errors demo_config demo_store_unreadable
             "AAPL" "yahoo").
    vm_compute. reflexivity.
  - destruct (get_latest_timestamp_catches_read_errors demo_config fresh_store
                "AAPL" "yahoo") as (_ & H).
    destruct (H false) as (_ & H' & _); [vm_compute; reflexivity|].
    apply H'. reflexivity.
  - destruct (get_latest_timestamp_catches_read_errors demo_config demo_store_damaged
                "AAPL" "yahoo") as (_ & H).
    destruct (H true) as (_ & _ & _ & H'); [vm_compute; reflexivity|].
    eapply (H' _ ComputeError); vm_compute; reflexivity.
Defined.

(** ** The count returned by the incremental merge *)

(** C3. On a store of five rows, merging a chunk of ten rows of which three
    timestamps are already stored leaves twelve rows, seven more than
    before, and [update_combined_file] returns [-3]: the rows counted
    "before" are those of the concatenation, so the result is minus the
    number of duplicates dropped. *)
Theorem update_combined_file_counts_duplicates :
  let out := HiveStorage.update_combined_file demo_config demo_now ten_row_chunk
               "AAPL" "yahoo" five_row_store in
  stored_row_count demo_config five_row_store "AAPL" "yahoo" = Ok 5%Z
  /\ fst out = Ok (-3)%Z
  /\ stored_row_count demo_config (snd out) "AAPL" "yahoo" = Ok 12%Z.
Proof. vm_compute. repeat split; reflexivity. Qed.

(** ** Directories are kept *)



















(** ** Key names *)






(** ** The entries of a directory *)








(** ** The key directory after a write *)


(** ** Keys and their directories *)



